(** * POS-SINDH: the billing engine of [app.py], embedded and verified

    The development follows [src/app.py]:
    - money is a Python [float]; it is taken here as an exact rational
      ([Q]), so that [round(x, 2)] is round-half-even to two decimals on
      the exact value (what CPython does on the exact value of the float);
      for the one statement that depends on it, the conservation of
      money, the same lines are also given with the rounding of binary64
      after every operation;
    - the five SQLite tables are lists of rows, with the [sqlite_sequence]
      counters of the AUTOINCREMENT keys;
    - every helper of the source opens its own connection, so a connection
      is a working copy of the durable database that only [commit] writes
      back; a statement may fail (a budget of statements that still
      succeed), which is how a failing step of a unit is expressed. *)

From Stdlib Require Import ZArith Lia List Bool Ascii String.
From Stdlib Require Import QArith Qround Qminmax Qabs Lqa.
From Stdlib Require Floats.
Import ListNotations.

Local Open Scope Q_scope.

(* ------------------------------------------------------------------ *)
(** ** Floats as exact rationals, and [round(x, 2)] *)

Definition Qltb (x y : Q) : bool :=
  match x ?= y with Lt => true | _ => false end.

Definition Qleb (x y : Q) : bool :=
  match x ?= y with Gt => false | _ => true end.

(** Nearest integer, ties to the even one. *)
Definition round_half_even (x : Q) : Z :=
  let f := Qfloor x in
  match Qcompare (x - inject_Z f) (1 # 2) with
  | Lt => f
  | Gt => (f + 1)%Z
  | Eq => if Z.even f then f else (f + 1)%Z
  end.

(** Python's [round(x, 2)]. *)
Definition round2 (x : Q) : Q := round_half_even (x * 100) # 100.

(** A value with at most two decimals: rounding does not move it. *)
Definition two_dp (x : Q) : Prop := round2 x == x.

(** Python's [min(a, b)] returns [a] unless [b < a]; [max(a, b)] returns
    [a] unless [a < b]: these are [Qmin] and [Qmax]. *)
Definition py_min (a b : Q) : Q := Qmin a b.
Definition py_max (a b : Q) : Q := Qmax a b.

(* ------------------------------------------------------------------ *)
(** ** Billing logic: the computation of [create_bill] (lines 212-243) *)

(** One entry of [items]: a dict [{name, qty, price}]. *)
Record item := mkItem {
  it_name : string;
  it_qty : Q;
  it_price : Q
}.

(** One entry of [lines]: a dict [{item, qty, price, total}]. *)
Record line := mkLine {
  ln_item : string;
  ln_qty : Q;
  ln_price : Q;
  ln_total : Q
}.

(** The body of [for it in items], on the pair [(subtotal, lines)]. *)
Definition bill_loop_body (acc : Q * list line) (it : item) : Q * list line :=
  let '(subtotal, lines) := acc in
  let q := it_qty it in
  let p := it_price it in
  if Qleb q 0 || Qltb p 0 then acc
  else
    let lt := round2 (q * p) in
    (subtotal + lt, lines ++ [mkLine (it_name it) q p lt]).

Definition bill_loop (items : list item) : Q * list line :=
  fold_left bill_loop_body items (0, []).

(** The dict returned by [create_bill], with the surviving lines. *)
Record details := mkDetails {
  subtotal : Q;
  advance_applied : Q;
  amount_paid : Q;
  advance_after : Q;
  remaining_after : Q;
  lines : list line
}.

(** Lines 212-243 of [create_bill]: everything between reading the ledger
    and the first INSERT. *)
Definition bill_compute (adv_before rem_before : Q) (items : list item)
    (paid : Q) : details :=
  let '(subtotal0, lines) := bill_loop items in
  let subtotal := round2 subtotal0 in
  (* Use advance first *)
  let advance_applied := py_min adv_before subtotal in
  let after_advance := subtotal - advance_applied in
  let payment := py_max 0 paid in
  let after_payment := after_advance - payment in
  let '(new_advance, new_remaining) :=
    if Qltb 0 after_payment then
      (* Customer still owes *)
      (adv_before - advance_applied, rem_before + after_payment)
    else
      (* Overpaid: becomes new advance *)
      let overpay := Qabs after_payment in
      ((adv_before - advance_applied) + overpay, rem_before) in
  mkDetails subtotal advance_applied payment
            (round2 new_advance) (round2 new_remaining) lines.

(* ------------------------------------------------------------------ *)
(** ** The same lines in binary floating point

    A Python [float] is an IEEE 754 binary64.  Its value is a rational;
    what the exact reading above leaves out is that each [+], [-] and [*]
    returns the binary64 nearest to the exact result, and that
    [round(x, 2)] returns the binary64 nearest to the two-decimal value
    (CPython rounds the exact value of the float to a decimal string and
    parses it back).  Comparisons, [min], [max] and [abs] are exact. *)

(** [2 ^ k], for any integer [k]. *)
Definition pow2 (k : Z) : Q :=
  if (0 <=? k)%Z then inject_Z (2 ^ k) else 1 # Z.to_pos (2 ^ (- k)).

(** The exponent of the leading bit of [x > 0]: [2^k <= x < 2^(k+1)]. *)
Definition ilog2 (x : Q) : Z :=
  let k := (Z.log2 (Qnum x) - Z.log2 (Zpos (Qden x)))%Z in
  if Qleb (pow2 k) x then k else (k - 1)%Z.

(** The binary64 nearest to [x], ties to the even mantissa: 53 bits from
    the leading one, and no bit below [2^-1074] (the subnormal range).
    Overflow to infinity, beyond [2^1024], is not represented. *)
Definition fl (x : Q) : Q :=
  match Qcompare x 0 with
  | Eq => 0
  | _ => let e := Z.max (ilog2 (Qabs x) - 52) (-1074) in
         inject_Z (round_half_even (x / pow2 e)) * pow2 e
  end.

(** [a + b], [a - b], [a * b] and [round(a, 2)] on floats. *)
Definition fadd (a b : Q) : Q := fl (a + b).
Definition fsub (a b : Q) : Q := fl (a - b).
Definition fmul (a b : Q) : Q := fl (a * b).







(** The value of a binary64 of the kernel, when it is finite. *)
Definition float_value (f : PrimFloat.float) : option Q :=
  match FloatOps.Prim2SF f with
  | SpecFloat.S754_zero _ => Some 0
  | SpecFloat.S754_finite s m e =>
      let v := inject_Z (Zpos m) * pow2 e in
      Some (if s then - v else v)
  | _ => None
  end.

(** The float [f] of the kernel has the value [x]. *)
Definition is_float (f : PrimFloat.float) (x : Q) : Prop :=
  match float_value f with
  | Some v => v == x
  | None => False
  end.

(* ------------------------------------------------------------------ *)
(** ** Strings: [str.strip()] *)

(** The ASCII characters [str.isspace()] accepts: tab to carriage return,
    the four separators 0x1c-0x1f and the space.  A [string] is a
    sequence of bytes here; whitespace beyond ASCII is not modelled. *)
Definition is_space (c : ascii) : bool :=
  let n := nat_of_ascii c in
  ((9 <=? n)%nat && (n <=? 13)%nat) || ((28 <=? n)%nat && (n <=? 32)%nat).

Fixpoint lstrip (s : string) : string :=
  match s with
  | EmptyString => EmptyString
  | String c s' => if is_space c then lstrip s' else s
  end.

Fixpoint rstrip (s : string) : string :=
  match s with
  | EmptyString => EmptyString
  | String c s' =>
      match rstrip s' with
      | EmptyString => if is_space c then EmptyString else String c EmptyString
      | r => String c r
      end
  end.

Definition strip (s : string) : string := rstrip (lstrip s).

(** No whitespace in front. *)
Definition starts_clean (s : string) : Prop :=
  match s with
  | EmptyString => True
  | String c _ => is_space c = false
  end.

(* ------------------------------------------------------------------ *)
(** ** Database helpers: the tables of [init_db] *)

Definition timestamp := string.

Record user_row := mkUser {
  u_id : Z;
  u_email : string;
  u_password_hash : string;
  u_salt : string;
  u_created_at : timestamp
}.

Record customer_row := mkCustomer {
  c_id : Z;
  c_name : string;
  c_created_at : timestamp
}.

Record ledger_row := mkLedger {
  l_customer_id : Z;
  l_advance : Q;
  l_remaining : Q
}.

Record bill_row := mkBill {
  b_id : Z;
  b_customer_id : Z;
  b_bill_date : timestamp;
  b_subtotal : Q;
  b_advance_applied : Q;
  b_amount_paid : Q;
  b_remaining_after : Q;
  b_advance_after : Q
}.

Record bill_item_row := mkBillItem {
  bi_id : Z;
  bi_bill_id : Z;
  bi_item_name : string;
  bi_quantity : Q;
  bi_unit_price : Q;
  bi_line_total : Q
}.

(** The five tables, and the [sqlite_sequence] entries of the three
    AUTOINCREMENT keys the program inserts into. *)
Record database := mkDB {
  users : list user_row;
  customers : list customer_row;
  ledger : list ledger_row;
  bills : list bill_row;
  bill_items : list bill_item_row;
  seq_customers : Z;
  seq_bills : Z;
  seq_bill_items : Z
}.

(** AUTOINCREMENT: one more than the largest key ever used. *)
Definition next_id (seq : Z) (ids : list Z) : Z :=
  (fold_right Z.max seq ids + 1)%Z.

(** [SELECT id FROM customers WHERE name=?], [fetchone()].  TEXT is
    compared with the BINARY collation: byte for byte. *)
Definition select_customer_id (name : string) (c : database) : option Z :=
  option_map c_id (find (fun r => String.eqb (c_name r) name) (customers c)).

(** [SELECT advance, remaining FROM ledger WHERE customer_id=?]. *)
Definition select_ledger (customer_id : Z) (c : database) : option (Q * Q) :=
  option_map (fun r => (l_advance r, l_remaining r))
    (find (fun r => Z.eqb (l_customer_id r) customer_id) (ledger c)).

(** [UPDATE ledger SET advance=?, remaining=? WHERE customer_id=?]. *)
Definition sql_update_ledger (customer_id : Z) (a r : Q) (c : database)
    : database :=
  mkDB (users c) (customers c)
    (map (fun row => if Z.eqb (l_customer_id row) customer_id
                     then mkLedger customer_id a r else row) (ledger c))
    (bills c) (bill_items c)
    (seq_customers c) (seq_bills c) (seq_bill_items c).

(** [INSERT OR IGNORE INTO ledger(customer_id, advance, remaining)
    VALUES (?,0,0)]: ignored when the primary key is taken. *)
Definition sql_insert_or_ignore_ledger (customer_id : Z) (c : database)
    : database :=
  if existsb (fun r => Z.eqb (l_customer_id r) customer_id) (ledger c) then c
  else mkDB (users c) (customers c)
         (ledger c ++ [mkLedger customer_id 0 0])
         (bills c) (bill_items c)
         (seq_customers c) (seq_bills c) (seq_bill_items c).

(* ------------------------------------------------------------------ *)
(** ** Exceptions, the durable database and connections *)

Inductive exn :=
| ValueError (msg : string)
| IntegrityError
| OperationalError.

Inductive result (A : Type) :=
| Ok (a : A)
| Raise (e : exn).
Arguments Ok {A} a.
Arguments Raise {A} e.

(** The durable database, and how many more statements succeed before one
    fails with [sqlite3.OperationalError] ([None]: none ever fails). *)
Record world := mkWorld {
  disk : database;
  budget : option nat
}.

Definition IO (A : Type) : Type := world -> result A * world.

Definition ret {A} (a : A) : IO A := fun w => (Ok a, w).

Definition raise {A} (e : exn) : IO A := fun w => (Raise e, w).

Definition bind {A B} (m : IO A) (k : A -> IO B) : IO B :=
  fun w =>
    match m w with
    | (Ok a, w') => k a w'
    | (Raise e, w') => (Raise e, w')
    end.

Notation "x <- m ;; k" := (bind m (fun x => k))
  (at level 61, m at next level, right associativity).
Notation "' p <- m ;; k" := (bind m (fun x => let 'p := x in k))
  (at level 61, p pattern, m at next level, right associativity).
Notation "m ;; k" := (bind m (fun _ => k))
  (at level 61, right associativity).

(** One statement reaches the database engine. *)
Definition step : IO unit :=
  fun w =>
    match budget w with
    | None => (Ok tt, w)
    | Some O => (Raise OperationalError, w)
    | Some (S k) => (Ok tt, mkWorld (disk w) (Some k))
    end.

(** A connection is a working copy of the database: its statements are
    seen by nobody else until [commit], and are lost if the connection is
    dropped before. *)
Definition conn := database.

Definition get_conn : IO conn := fun w => (Ok (disk w), w).

(** [cur.execute(...)] of a statement that answers [f c] on the working
    copy [c], or raises. *)
Definition execute {A} (f : conn -> result A) (c : conn) : IO A :=
  step ;; (fun w => (f c, w)).

(** A statement that cannot violate a constraint. *)
Definition run {A} (f : conn -> A) (c : conn) : IO A :=
  execute (fun c => Ok (f c)) c.

Definition commit (c : conn) : IO unit :=
  step ;; (fun w => (Ok tt, mkWorld c (budget w))).

Definition close (c : conn) : IO unit := ret tt.

(** [INSERT INTO customers(name, created_at)]: [name] is UNIQUE. *)
Definition sql_insert_customer (name : string) (created_at : timestamp)
    (c : conn) : result (Z * conn) :=
  if existsb (fun r => String.eqb (c_name r) name) (customers c)
  then Raise IntegrityError
  else
    let id := next_id (seq_customers c) (map c_id (customers c)) in
    Ok (id, mkDB (users c)
              (customers c ++ [mkCustomer id name created_at])
              (ledger c) (bills c) (bill_items c)
              id (seq_bills c) (seq_bill_items c)).

(** [INSERT INTO bills(...)], answering [cur.lastrowid]. *)
Definition sql_insert_bill (customer_id : Z) (bill_date : timestamp)
    (d : details) (c : conn) : Z * conn :=
  let id := next_id (seq_bills c) (map b_id (bills c)) in
  (id, mkDB (users c) (customers c) (ledger c)
         (bills c ++ [mkBill id customer_id bill_date (subtotal d)
                        (advance_applied d) (amount_paid d)
                        (remaining_after d) (advance_after d)])
         (bill_items c)
         (seq_customers c) id (seq_bill_items c)).

(** [INSERT INTO bill_items(...)]. *)
Definition sql_insert_bill_item (bill_id : Z) (ln : line) (c : conn)
    : conn :=
  let id := next_id (seq_bill_items c) (map bi_id (bill_items c)) in
  mkDB (users c) (customers c) (ledger c) (bills c)
    (bill_items c ++ [mkBillItem id bill_id (ln_item ln) (ln_qty ln)
                        (ln_price ln) (ln_total ln)])
    (seq_customers c) (seq_bills c) id.

(** [DELETE FROM <table>]: the rows go, the [sqlite_sequence] entry
    stays. *)
Definition sql_delete_bill_items (c : conn) : conn :=
  mkDB (users c) (customers c) (ledger c) (bills c) []
    (seq_customers c) (seq_bills c) (seq_bill_items c).

Definition sql_delete_bills (c : conn) : conn :=
  mkDB (users c) (customers c) (ledger c) [] (bill_items c)
    (seq_customers c) (seq_bills c) (seq_bill_items c).

Definition sql_delete_ledger (c : conn) : conn :=
  mkDB (users c) (customers c) [] (bills c) (bill_items c)
    (seq_customers c) (seq_bills c) (seq_bill_items c).

Definition sql_delete_customers (c : conn) : conn :=
  mkDB (users c) [] (ledger c) (bills c) (bill_items c)
    (seq_customers c) (seq_bills c) (seq_bill_items c).

(* ------------------------------------------------------------------ *)
(** ** Customer & Ledger helpers *)

Definition get_or_create_customer (name : string) (utcnow : timestamp)
    : IO Z :=
  let name := strip name in
  if String.eqb name "" then raise (ValueError "Customer name required")
  else
    conn <- get_conn ;;
    row <- run (select_customer_id name) conn ;;
    match row with
    | Some cid => close conn ;; ret cid
    | None =>
        '(cid, conn) <- execute (sql_insert_customer name utcnow) conn ;;
        conn <- run (sql_insert_or_ignore_ledger cid) conn ;;
        commit conn ;;
        close conn ;;
        ret cid
    end.

Definition get_ledger (customer_id : Z) : IO (Q * Q) :=
  conn <- get_conn ;;
  row <- run (select_ledger customer_id) conn ;;
  close conn ;;
  match row with
  | Some (a, r) => ret (a, r)
  | None => ret (0, 0)
  end.

Definition update_ledger (customer_id : Z) (new_advance new_remaining : Q)
    : IO unit :=
  conn <- get_conn ;;
  conn <- run (sql_update_ledger customer_id (round2 new_advance)
                 (round2 new_remaining)) conn ;;
  commit conn ;;
  close conn.

(* ------------------------------------------------------------------ *)
(** ** Billing logic: [create_bill] *)

(** [for ln in lines: cur.execute("INSERT INTO bill_items ...")]. *)
Fixpoint insert_lines (bill_id : Z) (lns : list line) (c : conn) : IO conn :=
  match lns with
  | [] => ret c
  | ln :: rest =>
      c' <- run (sql_insert_bill_item bill_id ln) c ;;
      insert_lines bill_id rest c'
  end.

(** Lines 245-260 of [create_bill]: the bill and its items on one
    connection, then [commit]. *)
Definition bill_insert (customer_id : Z) (now : timestamp) (d : details)
    : IO Z :=
  conn <- get_conn ;;
  '(bill_id, conn) <- run (sql_insert_bill customer_id now d) conn ;;
  conn <- insert_lines bill_id (lines d) conn ;;
  commit conn ;;
  close conn ;;
  ret bill_id.

(** [create_bill], with the two clock readings as arguments.  The PDF
    bytes of the returned triple come from the reportlab canvas, which is
    not part of the program; the pair of the serial and the details is
    returned. *)
Definition create_bill (customer_name : string) (items : list item)
    (paid : Q) (utcnow now : timestamp) : IO (Z * details) :=
  customer_id <- get_or_create_customer customer_name utcnow ;;
  '(adv_before, rem_before) <- get_ledger customer_id ;;
  let d := bill_compute adv_before rem_before items paid in
  bill_id <- bill_insert customer_id now d ;;
  update_ledger customer_id (advance_after d) (remaining_after d) ;;
  ret (bill_id, d).

(* ------------------------------------------------------------------ *)
(** ** Admin: the button of [page_admin] *)

Definition page_admin (clicked : bool) : IO unit :=
  if clicked then
    conn <- get_conn ;;
    conn <- run sql_delete_bill_items conn ;;
    conn <- run sql_delete_bills conn ;;
    conn <- run sql_delete_ledger conn ;;
    conn <- run sql_delete_customers conn ;;
    commit conn ;;
    close conn
  else ret tt.

(* ------------------------------------------------------------------ *)
(** ** What each transaction writes when it commits *)

(** A world in which no statement ever fails. *)
Definition quiet (db : database) : world := mkWorld db None.

(** The database right after [init_db]. *)
Definition empty_db : database := mkDB [] [] [] [] [] 0 0 0.

(** The customer [get_or_create_customer] answers for a stripped name,
    and the database it leaves. *)
Definition registered (name : string) (utcnow : timestamp) (db : database)
    : Z * database :=
  match select_customer_id name db with
  | Some cid => (cid, db)
  | None =>
      let id := next_id (seq_customers db) (map c_id (customers db)) in
      (id, sql_insert_or_ignore_ledger id
             (mkDB (users db)
                (customers db ++ [mkCustomer id name utcnow])
                (ledger db) (bills db) (bill_items db)
                id (seq_bills db) (seq_bill_items db)))
  end.

(** What [get_ledger] answers. *)
Definition ledger_of (customer_id : Z) (db : database) : Q * Q :=
  match select_ledger customer_id db with
  | Some (a, r) => (a, r)
  | None => (0, 0)
  end.

(** The bill and its items, inserted. *)
Definition billed (customer_id : Z) (now : timestamp) (d : details)
    (db : database) : Z * database :=
  let '(bill_id, c) := sql_insert_bill customer_id now d db in
  (bill_id, fold_left (fun c ln => sql_insert_bill_item bill_id ln c)
              (lines d) c).

(** The durable databases [create_bill] passes through: after the
    customer is registered, after the bill and its items are committed,
    after the ledger is updated; with the serial and the details it
    returns. *)
Record stages := mkStages {
  st_customer_id : Z;
  st_serial : Z;
  st_details : details;
  st_registered : database;
  st_billed : database;
  st_settled : database
}.

Definition bill_stages (customer_name : string) (items : list item)
    (paid : Q) (utcnow now : timestamp) (db : database) : stages :=
  let '(cid, db1) := registered (strip customer_name) utcnow db in
  let '(adv_before, rem_before) := ledger_of cid db1 in
  let d := bill_compute adv_before rem_before items paid in
  let '(bill_id, db2) := billed cid now d db1 in
  let db3 := sql_update_ledger cid (round2 (advance_after d))
               (round2 (remaining_after d)) db2 in
  mkStages cid bill_id d db1 db2 db3.

(** Python's [str.lower()] on ASCII letters (what [create_user] applies
    to e-mail addresses, and [get_or_create_customer] does not apply). *)
Definition lower_char (c : ascii) : ascii :=
  let n := nat_of_ascii c in
  if ((65 <=? n)%nat && (n <=? 90)%nat) then ascii_of_nat (n + 32) else c.

Fixpoint lower (s : string) : string :=
  match s with
  | EmptyString => EmptyString
  | String c s' => String (lower_char c) (lower s')
  end.

(** Stored names are stripped, and no two rows carry the same one. *)
Definition customers_wf (db : database) : Prop :=
  Forall (fun r => strip (c_name r) = c_name r) (customers db)
  /\ NoDup (map c_name (customers db)).

(** A ledger row as the data model wants it: non-negative, two
    decimals. *)
Definition ledger_row_ok (r : ledger_row) : Prop :=
  0 <= l_advance r /\ 0 <= l_remaining r
  /\ two_dp (l_advance r) /\ two_dp (l_remaining r).

Definition ledger_ok (db : database) : Prop :=
  Forall ledger_row_ok (ledger db).

(** The line a row of [bill_items] was made from. *)
Definition row_line (r : bill_item_row) : line :=
  mkLine (bi_item_name r) (bi_quantity r) (bi_unit_price r) (bi_line_total r).

(** A transaction: it answers [v] and leaves the database [after], or it
    raises and leaves the database as it was; it raises only when a
    statement fails. *)
Definition transaction {A} (m : IO A) (v : A) (after : database) (w : world)
    : Prop :=
  match m w with
  | (Ok a, w') =>
      a = v /\ disk w' = after /\ (budget w = None -> budget w' = None)
  | (Raise e, w') => disk w' = disk w /\ budget w <> None
  end.

(* ------------------------------------------------------------------ *)
(** ** The algorithm as the specification words it (section 4.3) *)

Definition spec_survives (it : item) : bool :=
  Qltb 0 (it_qty it) && Qleb 0 (it_price it).

Definition spec_line (it : item) : line :=
  mkLine (it_name it) (it_qty it) (it_price it)
         (round2 (it_qty it * it_price it)).

Definition Qsum (l : list Q) : Q := fold_right Qplus 0 l.

Definition spec_reconcile (priorAdvance priorRemaining : Q)
    (lineItems : list item) (paymentNow : Q) : details :=
  let surviving := map spec_line (filter spec_survives lineItems) in
  let subtotal := round2 (Qsum (map ln_total surviving)) in
  let advanceApplied := py_min priorAdvance subtotal in
  let afterAdvance := subtotal - advanceApplied in
  let payment := py_max 0 paymentNow in
  let afterPayment := afterAdvance - payment in
  let newAdvance :=
    if Qltb 0 afterPayment then priorAdvance - advanceApplied
    else (priorAdvance - advanceApplied) + (- afterPayment) in
  let newRemaining :=
    if Qltb 0 afterPayment then priorRemaining + afterPayment
    else priorRemaining in
  mkDetails subtotal advanceApplied payment
            (round2 newAdvance) (round2 newRemaining) surviving.

(* ------------------------------------------------------------------ *)
(** ** Security helpers: [create_user], [verify_user] *)

(** [hash_password(password, salt)]: PBKDF2-HMAC-SHA256 of [hashlib],
    150000 rounds, in hexadecimal.  The digest is computed by the
    library; it is a parameter of the two functions that call it. *)
Definition hasher := string -> string -> string.

(** [SELECT password_hash, salt FROM users WHERE email=?]. *)
Definition select_user (email : string) (c : database)
    : option (string * string) :=
  option_map (fun r => (u_password_hash r, u_salt r))
    (find (fun r => String.eqb (u_email r) email) (users c)).

(** [INSERT INTO users(email, password_hash, salt, created_at)]: [email]
    is UNIQUE.  No statement of the program deletes a user, so the key
    after the largest one in the table is the AUTOINCREMENT key. *)
Definition sql_insert_user (email pw_hash salt : string)
    (created_at : timestamp) (c : conn) : result conn :=
  if existsb (fun r => String.eqb (u_email r) email) (users c)
  then Raise IntegrityError
  else
    Ok (mkDB (users c
              ++ [mkUser (next_id 0 (map u_id (users c))) email pw_hash salt
                    created_at])
          (customers c) (ledger c) (bills c) (bill_items c)
          (seq_customers c) (seq_bills c) (seq_bill_items c)).

(** [try: body except sqlite3.IntegrityError: handler]. *)
Definition except_integrity {A} (body handler : IO A) : IO A :=
  fun w =>
    match body w with
    | (Raise IntegrityError, w') => handler w'
    | other => other
    end.

(** [create_user]; [salt] is what [secrets.token_hex(16)] answers. *)
Definition create_user (hash_password : hasher) (email password salt : string)
    (utcnow : timestamp) : IO (bool * string) :=
  conn <- get_conn ;;
  let pw_hash := hash_password password salt in
  r <- except_integrity
         (conn <- execute (sql_insert_user (strip (lower email)) pw_hash salt
                             utcnow) conn ;;
          commit conn ;;
          ret (true, ""%string))
         (ret (false, "Email already exists"%string)) ;;
  close conn ;;
  ret r.

(** [verify_user]; [hmac.compare_digest] is equality of the two
    strings. *)
Definition verify_user (hash_password : hasher) (email password : string)
    : IO bool :=
  conn <- get_conn ;;
  row <- run (select_user (strip (lower email))) conn ;;
  close conn ;;
  match row with
  | None => ret false
  | Some (pw_hash, salt) =>
      ret (String.eqb (hash_password password salt) pw_hash)
  end.

(* ------------------------------------------------------------------ *)
(** ** Pages: the forms and the listings *)

(** What a page shows after a button is pressed. *)
Inductive notice :=
| success (msg : string)
| warning (msg : string)
| error (msg : string).

(** The sign-up tab of [page_auth], "Create account" pressed. *)
Definition page_auth_signup (hash_password : hasher)
    (email2 pw1 pw2 salt : string) (utcnow : timestamp) : IO notice :=
  if String.eqb email2 "" || String.eqb pw1 "" then
    ret (warning "Email and password are required")
  else if negb (String.eqb pw1 pw2) then
    ret (warning "Passwords do not match")
  else
    '(ok, err) <- create_user hash_password email2 pw1 salt utcnow ;;
    if ok : bool then ret (success "Account created. Please log in.")
    else ret (error (if String.eqb err "" then "Could not create user"
                     else err)).

(** The login tab of [page_auth], "Login" pressed: the notice, and the
    user put in the session state if any. *)
Definition page_auth_login (hash_password : hasher) (email password : string)
    : IO (notice * option string) :=
  ok <- verify_user hash_password email password ;;
  if ok : bool then ret (success "Logged in successfully", Some email)
  else ret (error "Invalid credentials", None).

(** One product row of the billing form. *)
Definition form_item (name : string) (q p : Q) : list item :=
  if Qltb 0 q && Qleb 0 p then [mkItem name q p] else [].

(** What the billing form answers when "Generate Bill" is pressed. *)
Inductive form_result :=
| Warned (msg : string)
| Billed (bill_id : Z) (d : details).

(** [billing_form], "Generate Bill" pressed, with the eight fields of the
    form. *)
Definition billing_form (customer_name : string)
    (amount_paid qty1 price1 qty2 price2 qty3 price3 : Q)
    (utcnow now : timestamp) : IO form_result :=
  if String.eqb customer_name "" then
    ret (Warned "Customer name is required")
  else
    let items := form_item "500ML PACK" qty1 price1
                 ++ form_item "1.5LTR PACK" qty2 price2
                 ++ form_item "6LTR BOTTLE" qty3 price3 in
    match items with
    | [] => ret (Warned "Add at least one item with quantity > 0")
    | _ :: _ =>
        '(bill_id, d) <- create_bill customer_name items amount_paid
                           utcnow now ;;
        ret (Billed bill_id d)
    end.

(** The arguments [build_invoice_pdf] is called with: serial, customer
    name, bill date, and the amounts and items of a [details]. *)
Record invoice := mkInvoice {
  inv_serial : Z;
  inv_customer_name : string;
  inv_bill_date : timestamp;
  inv_details : details
}.

(** [SELECT b.*, c.name as customer FROM bills b JOIN customers c ON
    c.id=b.customer_id WHERE b.id=?], [fetchone()]. *)
Definition select_bill (serial : Z) (c : database)
    : option (bill_row * string) :=
  match find (fun b => Z.eqb (b_id b) serial) (bills c) with
  | None => None
  | Some b =>
      option_map (fun cu => (b, c_name cu))
        (find (fun cu => Z.eqb (c_id cu) (b_customer_id b)) (customers c))
  end.

(** [SELECT item_name as item, quantity as qty, unit_price as price,
    line_total as total FROM bill_items WHERE bill_id=?], as records. *)
Definition select_bill_items (serial : Z) (c : database) : list line :=
  map row_line (filter (fun r => Z.eqb (bi_bill_id r) serial) (bill_items c)).

(** [billing_form], "Download PDF" pressed: [None] is "Bill not found",
    otherwise what [build_invoice_pdf] is called with. *)
Definition billing_form_download (serial : Z) : IO (option invoice) :=
  conn <- get_conn ;;
  b <- run (select_bill serial) conn ;;
  match b with
  | None => close conn ;; ret None
  | Some (b, customer) =>
      items <- run (select_bill_items serial) conn ;;
      close conn ;;
      ret (Some (mkInvoice (b_id b) customer (b_bill_date b)
                   (mkDetails (b_subtotal b) (b_advance_applied b)
                      (b_amount_paid b) (b_advance_after b)
                      (b_remaining_after b) items)))
  end.









(* ------------------------------------------------------------------ *)
(** ** PDF generation: [build_invoice_pdf] *)

Definition COMPANY_NAME : string := "PURE SINDH WATER LTD".

Definition FOOTER_NOTE : string :=
  "Thank you for choosing PURE SINDH WATER LTD".

Inductive color := THEME_ACCENT | white | black | grey.

(** The calls [build_invoice_pdf] makes on the reportlab canvas.  What
    the canvas writes for them (the bytes of the PDF) is the library's
    business; the function is modelled by the calls it makes, in
    order. *)
Inductive canvas_op :=
| setFont (psfontname : string) (size : Q)
| drawString (x y : Q) (text : string)
| drawRightString (x y : Q) (text : string)
| drawCentredString (x y : Q) (text : string)
| canvas_line (x1 y1 x2 y2 : Q)
| setFillColor (c : color)
| rect (x y w h : Q) (fill stroke : Z)
| showPage
| save.

(** What the function takes from outside the program: the point size of
    a millimetre and the page size of reportlab, and the three ways
    Python prints a value in it ([f"{serial}"], [f"{x:.2f}"], and
    [strftime("%Y-%m-%d %H:%M")]). *)
Record printing := mkPrinting {
  mm : Q;
  A4 : Q * Q;
  format_int : Z -> string;
  format_2f : Q -> string;
  strftime : timestamp -> string
}.

(** The body of [for it in items], on [y] and the calls made so far. *)
Definition pdf_items_body (env : printing) (margin usable_w width height : Q)
    (acc : Q * list canvas_op) (it : line) : Q * list canvas_op :=
  let '(y, ops) := acc in
  let '(y, ops) :=
    if Qltb y (60 * mm env) then (height - margin - 20, ops ++ [showPage])
    else (y, ops) in
  (y - 12,
   ops ++ [drawString (margin + 6) y (ln_item it);
           drawRightString (margin + usable_w * (6 # 10)) y
             (format_2f env (ln_qty it));
           drawRightString (margin + usable_w * (8 # 10)) y
             (format_2f env (ln_price it));
           drawRightString (width - margin - 6) y
             (format_2f env (ln_total it))]).

Definition pdf_items (env : printing) (margin usable_w width height : Q)
    (y : Q) (items : list line) : Q * list canvas_op :=
  fold_left (pdf_items_body env margin usable_w width height) items (y, []).

Definition build_invoice_pdf (env : printing) (serial : Z)
    (customer_name : string) (bill_date : timestamp) (items : list line)
    (subtotal advance_applied amount_paid advance_after remaining_after : Q)
    : list canvas_op :=
  let '(width, height) := A4 env in
  let margin := 18 * mm env in
  let usable_w := width - 2 * margin in
  let center_x := width / 2 in
  (* Header (left company, right date/time) *)
  let y := height - margin - 14 in
  let header :=
    [setFont "Helvetica-Bold" 16;
     drawString margin (height - margin) COMPANY_NAME;
     setFont "Helvetica" 10;
     drawRightString (width - margin) (height - margin + 4)
       (strftime env bill_date);
     canvas_line margin y (width - margin) y] in
  (* Bill meta *)
  let y := y - 18 in
  let meta :=
    [setFont "Helvetica" 11;
     drawString margin y ("Bill Serial: " ++ format_int env serial);
     drawString (margin + 220) y ("Customer: " ++ customer_name)] in
  (* Table header (blue bar) *)
  let y := y - 22 in
  let table_header :=
    [setFillColor THEME_ACCENT;
     rect margin (y - 6) usable_w 18 1 0;
     setFillColor white;
     setFont "Helvetica-Bold" 10;
     drawString (margin + 6) y "Item";
     drawRightString (margin + usable_w * (6 # 10)) y "Quantity";
     drawRightString (margin + usable_w * (8 # 10)) y "Rate";
     drawRightString (width - margin - 6) y "Total"] in
  (* Items *)
  let y := y - 18 in
  let '(y, rows) := pdf_items env margin usable_w width height y items in
  (* Summary *)
  let y := y - 8 in
  let y2 := y - 14 in
  let y3 := y2 - 14 in
  let y4 := y3 - 14 in
  let y5 := y4 - 16 in
  let summary :=
    [setFont "Helvetica" 11;
     drawRightString (margin + usable_w * (8 # 10)) y "Subtotal:";
     drawRightString (width - margin - 6) y (format_2f env subtotal);
     drawRightString (margin + usable_w * (8 # 10)) y2 "Advance Applied:";
     drawRightString (width - margin - 6) y2
       ("-" ++ format_2f env advance_applied);
     drawRightString (margin + usable_w * (8 # 10)) y3 "Amount Paid (Now):";
     drawRightString (width - margin - 6) y3
       ("-" ++ format_2f env amount_paid);
     setFont "Helvetica-Bold" 12;
     drawRightString (margin + usable_w * (8 # 10)) y4 "Remaining After:";
     drawRightString (width - margin - 6) y4 (format_2f env remaining_after);
     drawRightString (margin + usable_w * (8 # 10)) y5 "Advance Balance:";
     drawRightString (width - margin - 6) y5 (format_2f env advance_after)] in
  (* Footer note centered *)
  let footer :=
    [setFont "Helvetica-Oblique" 10;
     setFillColor grey;
     drawCentredString center_x (18 * mm env) FOOTER_NOTE;
     showPage;
     save] in
  header ++ meta ++ table_header
  ++ [setFillColor black; setFont "Helvetica" 10]
  ++ rows ++ summary ++ footer.

(** The call of the "Download PDF" button on what it read. *)
Definition invoice_pdf (env : printing) (inv : invoice) : list canvas_op :=
  let d := inv_details inv in
  build_invoice_pdf env (inv_serial inv) (inv_customer_name inv)
    (inv_bill_date inv) (lines d) (subtotal d) (advance_applied d)
    (amount_paid d) (advance_after d) (remaining_after d).

(** The height a text is written at. *)
Definition text_y (op : canvas_op) : option Q :=
  match op with
  | drawString _ y _ | drawRightString _ y _ | drawCentredString _ y _ =>
      Some y
  | _ => None
  end.

Definition is_showPage (op : canvas_op) : bool :=
  match op with showPage => true | _ => false end.

(** The number of pages of a document. *)
Definition pages (ops : list canvas_op) : nat :=
  List.length (filter is_showPage ops).

(** The texts written with [drawString], in order (the item column in the
    rows of the table). *)
Definition left_texts (ops : list canvas_op) : list string :=
  flat_map (fun op => match op with
                      | drawString _ _ text => [text]
                      | _ => []
                      end) ops.

(** reportlab's millimetre (72 / 25.4 points) and A4 page, with any
    formatting. *)
Definition reportlab (fi : Z -> string) (f2 : Q -> string)
    (fd : timestamp -> string) : printing :=
  mkPrinting (360 # 127) (210 * (360 # 127), 297 * (360 # 127)) fi f2 fd.

(* ------------------------------------------------------------------ *)
(** ** The constraints of the schema, as the program keeps them *)

(** Primary keys are unique, every customer has a ledger row, every bill
    has its customer and every item its bill. *)
Definition db_wf (db : database) : Prop :=
  NoDup (map c_id (customers db))
  /\ NoDup (map l_customer_id (ledger db))
  /\ NoDup (map b_id (bills db))
  /\ Forall (fun cu => In (c_id cu) (map l_customer_id (ledger db)))
       (customers db)
  /\ Forall (fun b => In (b_customer_id b) (map c_id (customers db)))
       (bills db)
  /\ Forall (fun r => In (bi_bill_id r) (map b_id (bills db)))
       (bill_items db).

(** [l] begins with [p]. *)
Definition prefix {A} (p l : list A) : Prop := exists rest, l = p ++ rest.

(* ------------------------------------------------------------------ *)
(** ** Notions the statements use *)

(** What a bill in the making leaves alone, whichever of the stages the
    database is left at. *)
Definition untouched (cid : Z) (db db' : database) : Prop :=
  users db' = users db
  /\ prefix (customers db) (customers db')
  /\ prefix (bills db) (bills db')
  /\ prefix (bill_items db) (bill_items db')
  /\ forall c, c <> cid -> select_ledger c db' = select_ledger c db.

(** The database with one more user. *)
Definition with_user (email pw_hash salt : string) (created_at : timestamp)
    (db : database) : database :=
  mkDB (users db
        ++ [mkUser (next_id 0 (map u_id (users db))) email pw_hash salt
              created_at])
    (customers db) (ledger db) (bills db) (bill_items db)
    (seq_customers db) (seq_bills db) (seq_bill_items db).

(** What "Download PDF" answers on a database. *)
Definition download_answer (serial : Z) (db : database) : option invoice :=
  match select_bill serial db with
  | None => None
  | Some (b, customer) =>
      Some (mkInvoice (b_id b) customer (b_bill_date b)
              (mkDetails (b_subtotal b) (b_advance_applied b)
                 (b_amount_paid b) (b_advance_after b)
                 (b_remaining_after b) (select_bill_items serial db)))
  end.

(** Stored addresses are normalised, and no two rows carry the same
    one. *)
Definition users_wf (db : database) : Prop :=
  Forall (fun r => strip (lower (u_email r)) = u_email r) (users db)
  /\ NoDup (map u_email (users db)).

(** The items the form hands to [create_bill]. *)
Definition form_items (qty1 price1 qty2 price2 qty3 price3 : Q)
    : list item :=
  form_item "500ML PACK" qty1 price1
  ++ form_item "1.5LTR PACK" qty2 price2
  ++ form_item "6LTR BOTTLE" qty3 price3.

(** A text written between two heights. *)
Definition within (lo hi : Q) (op : canvas_op) : Prop :=
  match text_y op with
  | Some y => lo <= y /\ y <= hi
  | None => True
  end.

(* ------------------------------------------------------------------ *)
(** ** Tactics *)

(** Reduce the projections of a [details] record, and nothing else. *)
Ltac fields :=
  cbn [subtotal advance_applied amount_paid advance_after remaining_after
       lines].

(** The names of [bill_compute_unfold], introduced in a goal. *)
Ltac name_parts adv paid :=
  set (sub := round2 (Qsum (map ln_total (map spec_line
                (filter spec_survives _))))) in *;
  set (aa := py_min adv sub) in *;
  set (pay := py_max 0 paid) in *;
  set (ap := sub - aa - pay) in *.


(* ------------------------------------------------------------------ *)
(** ** Arithmetic of the model *)

Lemma Qltb_lt (x y : Q) : Qltb x y = true <-> x < y.
Proof.
  unfold Qltb. rewrite Qlt_alt. destruct (x ?= y); split; congruence.
Qed.

Lemma Qltb_ge (x y : Q) : Qltb x y = false <-> y <= x.
Proof.
  unfold Qltb, Qle. rewrite <- Z.ge_le_iff. unfold Z.ge.
  change (x ?= y) with (Qnum x * QDen y ?= Qnum y * QDen x)%Z.
  destruct (Qnum x * QDen y ?= Qnum y * QDen x)%Z; split; congruence.
Qed.

Lemma Qleb_le (x y : Q) : Qleb x y = true <-> x <= y.
Proof.
  unfold Qleb. rewrite Qle_alt. destruct (x ?= y); split; congruence.
Qed.

Lemma Qleb_gt (x y : Q) : Qleb x y = false <-> y < x.
Proof.
  unfold Qleb. pose proof (Qgt_alt x y) as G.
  destruct (x ?= y); split; intros H; try congruence;
    try (apply G; reflexivity); apply G in H; congruence.
Qed.

Lemma round_half_even_proper (x y : Q) :
  x == y -> round_half_even x = round_half_even y.
Proof.
  intros E. unfold round_half_even.
  rewrite (Qfloor_comp _ _ E).
  assert (C : (x - inject_Z (Qfloor y) ?= 1 # 2)
              = (y - inject_Z (Qfloor y) ?= 1 # 2)).
  { apply Qcompare_comp; [rewrite E|]; reflexivity. }
  rewrite C. reflexivity.
Qed.

Lemma round2_proper (x y : Q) : x == y -> round2 x = round2 y.
Proof.
  intros E. unfold round2. f_equal.
  apply round_half_even_proper. rewrite E. reflexivity.
Qed.

Lemma round_half_even_Z (n : Z) : round_half_even (inject_Z n) = n.
Proof.
  unfold round_half_even. rewrite Qfloor_Z.
  assert (C : (inject_Z n - inject_Z n ?= 1 # 2) = (0 ?= 1 # 2)).
  { apply Qcompare_comp; [ring | reflexivity]. }
  rewrite C. reflexivity.
Qed.

Lemma round2_cents (n : Z) : round2 (n # 100) = n # 100.
Proof.
  unfold round2. f_equal.
  rewrite (round_half_even_proper ((n # 100) * 100) (inject_Z n)).
  - apply round_half_even_Z.
  - unfold Qeq, Qmult, inject_Z; simpl. lia.
Qed.

Lemma round2_0 : round2 0 == 0.
Proof. vm_compute. reflexivity. Qed.

Lemma round2_zero (x : Q) : x == 0 -> round2 x == 0.
Proof. intros E. rewrite (round2_proper x 0 E). exact round2_0. Qed.

Lemma round2_nonneg (x : Q) : 0 <= x -> 0 <= round2 x.
Proof.
  intros H. unfold round2, round_half_even.
  assert (F : (0 <= Qfloor (x * 100))%Z).
  { change 0%Z with (Qfloor 0). apply Qfloor_resp_le. lra. }
  set (f := Qfloor (x * 100)) in *.
  assert (G : forall z : Z, (0 <= z)%Z -> 0 <= z # 100).
  { intros z Hz. unfold Qle; simpl. lia. }
  destruct (Qcompare (x * 100 - inject_Z f) (1 # 2)); [destruct (Z.even f)| |];
    apply G; lia.
Qed.

Lemma round2_idem (x : Q) : round2 (round2 x) = round2 x.
Proof. unfold round2 at 2 3. apply round2_cents. Qed.

Lemma two_dp_round2 (x : Q) : two_dp (round2 x).
Proof. unfold two_dp. rewrite round2_idem. reflexivity. Qed.

Lemma round2_two_dp (x : Q) : two_dp x -> round2 x == x.
Proof. exact (fun H => H). Qed.

Lemma two_dp_cents (x : Q) : two_dp x <-> exists n : Z, x == n # 100.
Proof.
  unfold two_dp; split.
  - intros H. exists (round_half_even (x * 100)). symmetry. exact H.
  - intros [n H]. rewrite (round2_proper _ _ H), round2_cents.
    symmetry. exact H.
Qed.

Lemma cents_plus (n m : Z) : (n # 100) + (m # 100) == (n + m) # 100.
Proof. unfold Qeq, Qplus; simpl. lia. Qed.

Lemma cents_opp (n : Z) : - (n # 100) == (- n) # 100.
Proof. unfold Qeq, Qopp; simpl. lia. Qed.

Lemma two_dp_plus (x y : Q) : two_dp x -> two_dp y -> two_dp (x + y).
Proof.
  rewrite !two_dp_cents. intros [n Hn] [m Hm]. exists (n + m)%Z.
  rewrite Hn, Hm. apply cents_plus.
Qed.

Lemma two_dp_opp (x : Q) : two_dp x -> two_dp (- x).
Proof.
  rewrite !two_dp_cents. intros [n Hn]. exists (- n)%Z.
  rewrite Hn. apply cents_opp.
Qed.

Lemma two_dp_minus (x y : Q) : two_dp x -> two_dp y -> two_dp (x - y).
Proof. intros Hx Hy. apply two_dp_plus; [|apply two_dp_opp]; assumption. Qed.

Lemma two_dp_0 : two_dp 0.
Proof. exact round2_0. Qed.

Lemma two_dp_proper (x y : Q) : x == y -> two_dp x -> two_dp y.
Proof.
  unfold two_dp. intros E H. rewrite <- (round2_proper _ _ E), H. exact E.
Qed.

Lemma py_min_cases (a b : Q) :
  (b < a /\ py_min a b == b) \/ (a <= b /\ py_min a b == a).
Proof.
  unfold py_min. destruct (Q.min_spec a b) as [[H E] | [H E]].
  - right. split; [lra | exact E].
  - destruct (Qlt_le_dec b a) as [L | L].
    + left. split; [exact L | exact E].
    + right. split; [exact L |]. rewrite E. lra.
Qed.

Lemma py_max_cases (a b : Q) :
  (a < b /\ py_max a b == b) \/ (b <= a /\ py_max a b == a).
Proof.
  unfold py_max. destruct (Q.max_spec a b) as [[H E] | [H E]].
  - left. split; [exact H | exact E].
  - right. split; [exact H | exact E].
Qed.

Lemma payment_nonneg (paid : Q) : 0 <= py_max 0 paid.
Proof. destruct (py_max_cases 0 paid) as [[? E] | [? E]]; lra. Qed.

Lemma Qabs_nonpos (x : Q) : x <= 0 -> Qabs x == - x.
Proof. apply Qabs_neg. Qed.

(* ------------------------------------------------------------------ *)
(** ** The loop of [create_bill] is a filter followed by a map *)

Lemma skip_is_not_survives (it : item) :
  Qleb (it_qty it) 0 || Qltb (it_price it) 0 = negb (spec_survives it).
Proof.
  unfold spec_survives. rewrite negb_andb. f_equal.
  - unfold Qleb, Qltb. rewrite <- (Qcompare_antisym 0 (it_qty it)).
    destruct (0 ?= it_qty it); reflexivity.
  - unfold Qleb, Qltb. rewrite <- (Qcompare_antisym 0 (it_price it)).
    destruct (0 ?= it_price it); reflexivity.
Qed.

Lemma spec_survives_iff (it : item) :
  spec_survives it = true <-> 0 < it_qty it /\ 0 <= it_price it.
Proof.
  unfold spec_survives. rewrite andb_true_iff, Qltb_lt, Qleb_le. tauto.
Qed.

Lemma excluded_not_survives (it : item) :
  it_qty it <= 0 \/ it_price it < 0 -> spec_survives it = false.
Proof.
  unfold spec_survives. intros [H | H].
  - apply Qltb_ge in H. rewrite H. reflexivity.
  - apply Qleb_gt in H. rewrite H. apply andb_false_r.
Qed.

Lemma all_excluded (items : list item) :
  Forall (fun it => it_qty it <= 0 \/ it_price it < 0) items ->
  filter spec_survives items = [].
Proof.
  induction 1 as [| it items H _ IH]; simpl; [reflexivity |].
  rewrite (excluded_not_survives it H). exact IH.
Qed.

Lemma bill_loop_from (items : list item) (s : Q) (ls : list line) :
  let survivors := map spec_line (filter spec_survives items) in
  fst (fold_left bill_loop_body items (s, ls))
    == s + Qsum (map ln_total survivors)
  /\ snd (fold_left bill_loop_body items (s, ls)) = ls ++ survivors.
Proof.
  revert s ls. induction items as [| it items IH]; intros s ls; simpl.
  - split; [ring | symmetry; apply app_nil_r].
  - rewrite skip_is_not_survives.
    destruct (spec_survives it); simpl.
    + change (mkLine (it_name it) (it_qty it) (it_price it)
                     (round2 (it_qty it * it_price it))) with (spec_line it).
      destruct (IH (s + round2 (it_qty it * it_price it))
                   (ls ++ [spec_line it])) as [E1 E2].
      split.
      * rewrite E1. simpl. ring.
      * rewrite E2, <- app_assoc. reflexivity.
    + apply IH.
Qed.

Lemma bill_loop_spec (items : list item) :
  let survivors := map spec_line (filter spec_survives items) in
  fst (bill_loop items) == Qsum (map ln_total survivors)
  /\ snd (bill_loop items) = survivors.
Proof.
  destruct (bill_loop_from items 0 []) as [E1 E2]. split.
  - unfold bill_loop. rewrite E1. ring.
  - exact E2.
Qed.

Lemma Qsum_totals_nonneg (items : list item) :
  0 <= Qsum (map ln_total (map spec_line (filter spec_survives items))).
Proof.
  induction items as [| it items IH]; simpl; [lra |].
  destruct (spec_survives it) eqn:S; simpl; [| exact IH].
  apply andb_prop in S. destruct S as [Sq Sp].
  apply Qltb_lt in Sq. apply Qleb_le in Sp.
  assert (0 <= round2 (it_qty it * it_price it)).
  { apply round2_nonneg. apply Qmult_le_0_compat; lra. }
  lra.
Qed.

(** What [bill_compute] returns, with the loop resolved and the two
    branches of [if after_payment > 0] side by side. *)
Lemma bill_compute_unfold (adv rem : Q) (items : list item) (paid : Q) :
  let survivors := map spec_line (filter spec_survives items) in
  let sub := round2 (Qsum (map ln_total survivors)) in
  let aa := py_min adv sub in
  let pay := py_max 0 paid in
  let ap := sub - aa - pay in
  bill_compute adv rem items paid =
    mkDetails sub aa pay
      (round2 (if Qltb 0 ap then adv - aa else (adv - aa) + Qabs ap))
      (round2 (if Qltb 0 ap then rem + ap else rem))
      survivors.
Proof.
  intros survivors sub aa pay ap. unfold bill_compute.
  destruct (bill_loop_spec items) as [E1 E2].
  destruct (bill_loop items) as [s0 ls]. simpl in E1, E2.
  fold survivors in E1, E2. subst ls.
  rewrite (round2_proper s0 _ E1). fold sub. fold aa. fold pay. fold ap.
  destruct (Qltb 0 ap); reflexivity.
Qed.

Lemma bill_compute_lines (adv rem : Q) (items : list item) (paid : Q) :
  lines (bill_compute adv rem items paid)
  = map spec_line (filter spec_survives items).
Proof. rewrite bill_compute_unfold. reflexivity. Qed.

Lemma bill_compute_subtotal (adv rem : Q) (items : list item) (paid : Q) :
  subtotal (bill_compute adv rem items paid)
  = round2 (Qsum (map ln_total (lines (bill_compute adv rem items paid)))).
Proof. rewrite bill_compute_unfold. reflexivity. Qed.

Lemma subtotal_nonneg (adv rem : Q) (items : list item) (paid : Q) :
  0 <= subtotal (bill_compute adv rem items paid).
Proof.
  rewrite bill_compute_unfold. simpl.
  apply round2_nonneg, Qsum_totals_nonneg.
Qed.

(* ------------------------------------------------------------------ *)
(** ** The two branches of the reconciliation *)

(** Both balances stay non-negative. *)
Lemma balances_nonneg (adv rem : Q) (items : list item) (paid : Q) :
  0 <= rem ->
  0 <= advance_after (bill_compute adv rem items paid)
  /\ 0 <= remaining_after (bill_compute adv rem items paid).
Proof.
  intros Hr. rewrite bill_compute_unfold. fields. name_parts adv paid.
  pose proof (Qabs_nonneg ap) as N.
  split; apply round2_nonneg.
  - destruct (py_min_cases adv sub) as [[A E] | [A E]]; fold aa in E;
      destruct (Qltb 0 ap); lra.
  - destruct (Qltb 0 ap) eqn:B; [apply Qltb_lt in B |]; lra.
Qed.

(** A debt-free customer, or one who does not overpay, leaves with at
    most one of the two balances. *)
Lemma balances_exclusive (adv rem : Q) (items : list item) (paid : Q) :
  let d := bill_compute adv rem items paid in
  adv == 0 \/ rem == 0 ->
  rem == 0 \/ amount_paid d <= subtotal d - advance_applied d ->
  advance_after d == 0 \/ remaining_after d == 0.
Proof.
  intros d X P. unfold d in *. rewrite bill_compute_unfold in *.
  cbn [subtotal advance_applied amount_paid advance_after remaining_after]
    in *.
  name_parts adv paid.
  pose proof (payment_nonneg paid) as N. fold pay in N.
  assert (S : 0 <= sub) by apply round2_nonneg, Qsum_totals_nonneg.
  destruct (py_min_cases adv sub) as [[A E] | [A E]]; fold aa in E;
    destruct (Qltb 0 ap) eqn:B.
  - apply Qltb_lt in B. left. apply round2_zero. unfold ap in B. lra.
  - right. apply round2_zero. destruct P as [P | P]; [exact P |].
    destruct X as [X | X]; [lra | exact X].
  - apply Qltb_lt in B. left. apply round2_zero. unfold ap in B. lra.
  - apply Qltb_ge in B. destruct P as [P | P].
    + right. apply round2_zero. exact P.
    + left. apply round2_zero. rewrite (Qabs_nonpos ap B).
      unfold ap in *. lra.
Qed.

(* ------------------------------------------------------------------ *)
(** ** Binary floating point is exact on quarters *)






















(** The kernel's binary64 and the rounding [fl] give the same floats. *)
Module Binary64.
Import PrimFloat.
Local Open Scope float_scope.

Example parsing :
  is_float (1 / 10) (fl (1 # 10)) /\ is_float (2 / 10) (fl (2 # 10))
  /\ is_float (3 / 10) (fl (3 # 10)) /\ is_float (1995 / 100) (fl (1995 # 100)).
Proof. vm_compute. repeat split. Qed.

Example adding :
  is_float (1 / 10 + 2 / 10) (fadd (fl (1 # 10)) (fl (2 # 10))).
Proof. vm_compute. reflexivity. Qed.

Example subtracting :
  is_float (3 / 10 - 1 / 10) (fsub (fl (3 # 10)) (fl (1 # 10))).
Proof. vm_compute. reflexivity. Qed.

Example multiplying :
  is_float (3 * (115 / 100)) (fmul 3 (fl (115 # 100))).
Proof. vm_compute. reflexivity. Qed.

(** What a Python session answers to [0.1 + 0.2 == 0.3] and to
    [0.3 - 0.1 == 0.2]. *)
Example python_session :
  (1 / 10 + 2 / 10 =? 3 / 10) = false /\ (3 / 10 - 1 / 10 =? 2 / 10) = false.
Proof. vm_compute. split; reflexivity. Qed.

End Binary64.

(* ------------------------------------------------------------------ *)
(** ** [strip] *)

Lemma lstrip_starts_clean (s : string) : starts_clean (lstrip s).
Proof.
  induction s as [| c s IH]; simpl; [exact I |].
  destruct (is_space c) eqn:E; [exact IH | exact E].
Qed.

Lemma lstrip_clean (s : string) : starts_clean s -> lstrip s = s.
Proof. destruct s as [| c s]; simpl; [| intros ->]; reflexivity. Qed.

Lemma rstrip_starts_clean (s : string) :
  starts_clean s -> starts_clean (rstrip s).
Proof.
  destruct s as [| c s]; simpl; [exact (fun H => H) |].
  intros H. destruct (rstrip s); simpl; [rewrite H |]; exact H.
Qed.

Lemma rstrip_idem (s : string) : rstrip (rstrip s) = rstrip s.
Proof.
  induction s as [| c s IH]; simpl; [reflexivity |].
  destruct (rstrip s) as [| c' r] eqn:R.
  - destruct (is_space c) eqn:E; simpl; [| rewrite E]; reflexivity.
  - change (rstrip (String c (String c' r)))
      with (match rstrip (String c' r) with
            | EmptyString =>
                if is_space c then EmptyString else String c EmptyString
            | x => String c x
            end).
    rewrite IH. reflexivity.
Qed.

Lemma strip_idem (s : string) : strip (strip s) = strip s.
Proof.
  unfold strip.
  rewrite (lstrip_clean (rstrip (lstrip s))).
  - apply rstrip_idem.
  - apply rstrip_starts_clean, lstrip_starts_clean.
Qed.

Example strip_Ali : strip "Ali " = "Ali"%string /\ strip "ali" = "ali"%string
  /\ strip "  Ali Khan  " = "Ali Khan"%string.
Proof. repeat split. Qed.

(* ------------------------------------------------------------------ *)
(** ** Statements, connections and transactions *)

Lemma transaction_ret {A} (v : A) (w : world) :
  transaction (ret v) v (disk w) w.
Proof. unfold transaction, ret. auto. Qed.

Lemma transaction_get_conn (w : world) :
  transaction get_conn (disk w) (disk w) w.
Proof. unfold transaction, get_conn. auto. Qed.

Lemma transaction_close (c : conn) (w : world) :
  transaction (close c) tt (disk w) w.
Proof. apply transaction_ret. Qed.

Lemma transaction_step (w : world) : transaction step tt (disk w) w.
Proof.
  unfold transaction, step. destruct w as [db [[| k] |]]; simpl.
  - split; [reflexivity | discriminate].
  - repeat split. discriminate.
  - auto.
Qed.

(** Sequencing after a part that wrote nothing durable. *)
Lemma transaction_bind {A B} (m : IO A) (k : A -> IO B) (v : A) (v' : B)
    (after : database) (w : world) :
  transaction m v (disk w) w ->
  (forall w1, disk w1 = disk w -> transaction (k v) v' after w1) ->
  transaction (bind m k) v' after w.
Proof.
  unfold transaction, bind. intros Hm Hk.
  destruct (m w) as [[a | e] w1].
  - destruct Hm as (-> & D & Hb). specialize (Hk w1 D).
    destruct (k v w1) as [[b | e] w2].
    + destruct Hk as (-> & D' & Hb'). auto.
    + destruct Hk as (D' & Hb'). split; [congruence | auto].
  - exact Hm.
Qed.

Lemma transaction_execute {A} (f : conn -> result A) (c : conn) (v : A)
    (w : world) :
  f c = Ok v -> transaction (execute f c) v (disk w) w.
Proof.
  intros E. unfold execute.
  apply (transaction_bind step _ tt); [apply transaction_step |].
  intros w1 D. unfold transaction. rewrite E, D. auto.
Qed.

Lemma transaction_run {A} (f : conn -> A) (c : conn) (w : world) :
  transaction (run f c) (f c) (disk w) w.
Proof. apply transaction_execute. reflexivity. Qed.

(** [commit] is where a connection's work becomes durable; nothing that
    can fail follows it on the same connection. *)
Lemma transaction_commit {A} (c : conn) (v : A) (w : world) :
  transaction (commit c ;; close c ;; ret v) v c w.
Proof.
  unfold transaction, commit, close, ret, bind, step.
  destruct w as [db [[| k] |]]; simpl.
  - split; [reflexivity | discriminate].
  - repeat split. discriminate.
  - auto.
Qed.

Lemma transaction_quiet {A} (m : IO A) (v : A) (after db : database) :
  transaction m v after (quiet db) -> m (quiet db) = (Ok v, quiet after).
Proof.
  unfold transaction. destruct (m (quiet db)) as [[a | e] [db' b']]; simpl.
  - intros (-> & -> & B). rewrite B; reflexivity.
  - intros (_ & B). exfalso. apply B. reflexivity.
Qed.

(* ------------------------------------------------------------------ *)
(** ** The helpers are transactions *)

Lemma select_none_not_exists (name : string) (db : database) :
  select_customer_id name db = None ->
  existsb (fun r => String.eqb (c_name r) name) (customers db) = false.
Proof.
  unfold select_customer_id. induction (customers db) as [| r rs IH]; simpl.
  - reflexivity.
  - destruct (String.eqb (c_name r) name); [discriminate | exact IH].
Qed.

Lemma get_or_create_customer_transaction (name : string) (utcnow : timestamp)
    (w : world) :
  strip name <> ""%string ->
  transaction (get_or_create_customer name utcnow)
    (fst (registered (strip name) utcnow (disk w)))
    (snd (registered (strip name) utcnow (disk w))) w.
Proof.
  intros NE. unfold get_or_create_customer.
  destruct (String.eqb_spec (strip name) "") as [E | _]; [contradiction |].
  eapply transaction_bind; [apply transaction_get_conn |]. intros w1 D1.
  eapply transaction_bind; [apply transaction_run |]. intros w2 D2.
  unfold registered.
  destruct (select_customer_id (strip name) (disk w)) as [cid |] eqn:S.
  - eapply transaction_bind; [apply transaction_close |]. intros w3 D3.
    simpl. rewrite <- D1, <- D2, <- D3. apply transaction_ret.
  - eapply transaction_bind.
    + apply transaction_execute. unfold sql_insert_customer.
      rewrite (select_none_not_exists _ _ S). reflexivity.
    + intros w3 D3. cbv beta iota.
      eapply transaction_bind; [apply transaction_run |]. intros w4 D4.
      simpl fst. simpl snd. apply transaction_commit.
Qed.

Lemma get_or_create_customer_empty (name : string) (utcnow : timestamp)
    (w : world) :
  strip name = ""%string ->
  get_or_create_customer name utcnow w
  = (Raise (ValueError "Customer name required"), w).
Proof. intros E. unfold get_or_create_customer. rewrite E. reflexivity. Qed.

Lemma get_ledger_transaction (customer_id : Z) (w : world) :
  transaction (get_ledger customer_id)
    (ledger_of customer_id (disk w)) (disk w) w.
Proof.
  unfold get_ledger, ledger_of.
  eapply transaction_bind; [apply transaction_get_conn |]. intros w1 D1.
  eapply transaction_bind; [apply transaction_run |]. intros w2 D2.
  eapply transaction_bind; [apply transaction_close |]. intros w3 D3.
  rewrite <- D1, <- D2, <- D3.
  destruct (select_ledger customer_id (disk w3)) as [[a r] |];
    apply transaction_ret.
Qed.

Lemma update_ledger_transaction (customer_id : Z) (a r : Q) (w : world) :
  transaction (update_ledger customer_id a r) tt
    (sql_update_ledger customer_id (round2 a) (round2 r) (disk w)) w.
Proof.
  unfold update_ledger.
  eapply transaction_bind; [apply transaction_get_conn |]. intros w1 D1.
  eapply transaction_bind; [apply transaction_run |]. intros w2 D2.
  unfold transaction, commit, close, ret, bind, step.
  destruct w2 as [db [[| k] |]]; simpl.
  - split; [reflexivity | discriminate].
  - repeat split. discriminate.
  - auto.
Qed.

Lemma update_ledger_result (customer_id : Z) (a r : Q) (w : world) :
  fst (update_ledger customer_id a r w) = Ok tt
  \/ fst (update_ledger customer_id a r w) = Raise OperationalError.
Proof.
  unfold update_ledger, run, execute, commit, close, get_conn, ret, bind,
    step.
  destruct w as [db [[| [| k]] |]]; simpl; auto.
Qed.

Lemma insert_lines_transaction (bill_id : Z) (lns : list line) (c : conn)
    (w : world) :
  transaction (insert_lines bill_id lns c)
    (fold_left (fun c ln => sql_insert_bill_item bill_id ln c) lns c)
    (disk w) w.
Proof.
  revert c w. induction lns as [| ln lns IH]; intros c w; simpl.
  - apply transaction_ret.
  - eapply transaction_bind; [apply transaction_run |]. intros w1 D1.
    rewrite <- D1. apply IH.
Qed.

Lemma bill_insert_transaction (customer_id : Z) (now : timestamp)
    (d : details) (w : world) :
  transaction (bill_insert customer_id now d)
    (fst (billed customer_id now d (disk w)))
    (snd (billed customer_id now d (disk w))) w.
Proof.
  unfold bill_insert, billed.
  eapply transaction_bind; [apply transaction_get_conn |]. intros w1 D1.
  eapply transaction_bind; [apply transaction_run |]. intros w2 D2.
  destruct (sql_insert_bill customer_id now d (disk w)) as [bill_id c].
  eapply transaction_bind; [apply insert_lines_transaction |]. intros w3 D3.
  simpl fst. simpl snd. apply transaction_commit.
Qed.

Lemma page_admin_transaction (w : world) :
  transaction (page_admin true) tt
    (sql_delete_customers (sql_delete_ledger (sql_delete_bills
       (sql_delete_bill_items (disk w))))) w.
Proof.
  unfold page_admin.
  eapply transaction_bind; [apply transaction_get_conn |]. intros w1 D1.
  eapply transaction_bind; [apply transaction_run |]. intros w2 D2.
  eapply transaction_bind; [apply transaction_run |]. intros w3 D3.
  eapply transaction_bind; [apply transaction_run |]. intros w4 D4.
  eapply transaction_bind; [apply transaction_run |]. intros w5 D5.
  unfold transaction, commit, close, ret, bind, step.
  destruct w5 as [db [[| k] |]]; simpl.
  - split; [reflexivity | discriminate].
  - repeat split. discriminate.
  - auto.
Qed.

(* ------------------------------------------------------------------ *)
(** ** [create_bill]: three transactions in a row *)

Lemma create_bill_stages (customer_name : string) (items : list item)
    (paid : Q) (utcnow now : timestamp) (w : world) :
  strip customer_name <> ""%string ->
  let st := bill_stages customer_name items paid utcnow now (disk w) in
  match create_bill customer_name items paid utcnow now w with
  | (Ok v, w') =>
      v = (st_serial st, st_details st) /\ disk w' = st_settled st
      /\ (budget w = None -> budget w' = None)
  | (Raise e, w') =>
      (disk w' = disk w \/ disk w' = st_registered st
       \/ disk w' = st_billed st) /\ budget w <> None
  end.
Proof.
  intros NE. unfold bill_stages, create_bill, bind.
  pose proof (get_or_create_customer_transaction customer_name utcnow w NE)
    as T1. unfold transaction in T1.
  destruct (registered (strip customer_name) utcnow (disk w)) as [cid db1].
  destruct (get_or_create_customer customer_name utcnow w) as [[a | e] w1];
    simpl in T1.
  2:{ destruct T1 as [D B]. split; [left; exact D | exact B]. }
  destruct T1 as (-> & D1 & B1).
  pose proof (get_ledger_transaction cid w1) as T2. unfold transaction in T2.
  rewrite D1 in T2.
  destruct (ledger_of cid db1) as [adv rem].
  destruct (get_ledger cid w1) as [[[a r] | e] w2].
  2:{ destruct T2 as [D B]. simpl.
      split; [right; left; congruence | auto]. }
  destruct T2 as (E & D2 & B2). injection E as -> ->.
  set (d := bill_compute adv rem items paid).
  pose proof (bill_insert_transaction cid now d w2) as T3.
  unfold transaction in T3. rewrite D2 in T3.
  destruct (billed cid now d db1) as [bill_id db2].
  destruct (bill_insert cid now d w2) as [[b | e] w3]; simpl in T3.
  2:{ destruct T3 as [D B]. simpl.
      split; [right; left; congruence | auto]. }
  destruct T3 as (-> & D3 & B3).
  pose proof (update_ledger_transaction cid (advance_after d)
                (remaining_after d) w3) as T4.
  unfold transaction in T4. rewrite D3 in T4.
  destruct (update_ledger cid (advance_after d) (remaining_after d) w3)
    as [[[] | e] w4].
  - destruct T4 as (_ & D4 & B4). simpl. repeat split; auto.
  - destruct T4 as [D B]. simpl.
    split; [right; right; congruence | intros N; auto].
Qed.

Lemma get_or_create_customer_empty_bill (customer_name : string)
    (items : list item) (paid : Q) (utcnow now : timestamp) (w : world) :
  strip customer_name = ""%string ->
  create_bill customer_name items paid utcnow now w
  = (Raise (ValueError "Customer name required"), w).
Proof.
  intros E. unfold create_bill, bind.
  rewrite (get_or_create_customer_empty _ _ _ E). reflexivity.
Qed.

Lemma create_bill_quiet (customer_name : string) (items : list item)
    (paid : Q) (utcnow now : timestamp) (db : database) :
  strip customer_name <> ""%string ->
  let st := bill_stages customer_name items paid utcnow now db in
  create_bill customer_name items paid utcnow now (quiet db)
  = (Ok (st_serial st, st_details st), quiet (st_settled st)).
Proof.
  intros NE st.
  pose proof (create_bill_stages customer_name items paid utcnow now
                (quiet db) NE) as H. simpl in H. fold st in H.
  destruct (create_bill customer_name items paid utcnow now (quiet db))
    as [[v | e] [db' b']]; simpl in H.
  - destruct H as (-> & -> & B). rewrite B; reflexivity.
  - destruct H as [_ B]. exfalso. apply B. reflexivity.
Qed.

(** Whatever statement fails, the database is left at one of the
    stages. *)
Lemma create_bill_durable (customer_name : string) (items : list item)
    (paid : Q) (utcnow now : timestamp) (w : world) :
  let st := bill_stages customer_name items paid utcnow now (disk w) in
  match create_bill customer_name items paid utcnow now w with
  | (Ok v, w') =>
      v = (st_serial st, st_details st) /\ disk w' = st_settled st
  | (Raise _, w') =>
      disk w' = disk w \/ disk w' = st_registered st
      \/ disk w' = st_billed st
  end.
Proof.
  intros st.
  destruct (string_dec (strip customer_name) "") as [E | NE].
  - rewrite (get_or_create_customer_empty_bill customer_name items paid
               utcnow now w E). left. reflexivity.
  - pose proof (create_bill_stages customer_name items paid utcnow now w NE)
      as H. cbv zeta in H. fold st in H.
    destruct (create_bill customer_name items paid utcnow now w)
      as [[v | e] w'].
    + destruct H as (V & D & _). auto.
    + destruct H as [D _]. exact D.
Qed.

(* ------------------------------------------------------------------ *)
(** ** The tables at each stage *)

Lemma insert_items_tables (bill_id : Z) (lns : list line) (c : conn) :
  let c' := fold_left (fun c ln => sql_insert_bill_item bill_id ln c) lns c in
  users c' = users c /\ customers c' = customers c
  /\ ledger c' = ledger c /\ bills c' = bills c
  /\ exists rows, bill_items c' = bill_items c ++ rows
       /\ map row_line rows = lns
       /\ Forall (fun r => bi_bill_id r = bill_id) rows.
Proof.
  revert c. induction lns as [| ln lns IH]; intros c; simpl.
  - repeat split. exists []. rewrite app_nil_r. auto.
  - destruct (IH (sql_insert_bill_item bill_id ln c))
      as (U & C & L & B & rows & I & M & F).
    rewrite U, C, L, B. repeat split.
    eexists (_ :: rows). rewrite I. simpl. rewrite <- app_assoc. simpl.
    split; [reflexivity |]. split.
    + cbn [map]. f_equal; [destruct ln; reflexivity | exact M].
    + constructor; [reflexivity | exact F].
Qed.

Lemma billed_tables (customer_id : Z) (now : timestamp) (d : details)
    (db : database) :
  let bill_id := fst (billed customer_id now d db) in
  let db' := snd (billed customer_id now d db) in
  users db' = users db /\ customers db' = customers db
  /\ ledger db' = ledger db
  /\ bills db' = bills db ++ [mkBill bill_id customer_id now (subtotal d)
                                (advance_applied d) (amount_paid d)
                                (remaining_after d) (advance_after d)]
  /\ exists rows, bill_items db' = bill_items db ++ rows
       /\ map row_line rows = lines d
       /\ Forall (fun r => bi_bill_id r = bill_id) rows.
Proof.
  unfold billed, sql_insert_bill. simpl.
  match goal with
  | |- context [fold_left ?f ?l ?c] =>
      destruct (insert_items_tables
                  (next_id (seq_bills db) (map b_id (bills db))) l c)
        as (U & C & L & B & R)
  end.
  simpl in U, C, L, B, R. auto.
Qed.

Lemma insert_or_ignore_ledger_tables (cid : Z) (c : database) :
  users (sql_insert_or_ignore_ledger cid c) = users c
  /\ customers (sql_insert_or_ignore_ledger cid c) = customers c
  /\ bills (sql_insert_or_ignore_ledger cid c) = bills c
  /\ bill_items (sql_insert_or_ignore_ledger cid c) = bill_items c
  /\ (ledger (sql_insert_or_ignore_ledger cid c) = ledger c
      \/ ledger (sql_insert_or_ignore_ledger cid c)
         = ledger c ++ [mkLedger cid 0 0]).
Proof.
  unfold sql_insert_or_ignore_ledger.
  destruct (existsb _ (ledger c)); simpl; auto 10.
Qed.

Lemma registered_tables (name : string) (utcnow : timestamp) (db : database) :
  let cid := fst (registered name utcnow db) in
  let db' := snd (registered name utcnow db) in
  users db' = users db /\ bills db' = bills db
  /\ bill_items db' = bill_items db
  /\ (ledger db' = ledger db \/ ledger db' = ledger db ++ [mkLedger cid 0 0]).
Proof.
  unfold registered. destruct (select_customer_id name db) as [cid |]; simpl.
  - auto.
  - match goal with
    | |- context [sql_insert_or_ignore_ledger ?i ?c] =>
        destruct (insert_or_ignore_ledger_tables i c) as (U & C & B & I & L)
    end.
    simpl in U, C, B, I, L. auto.
Qed.

Lemma bill_stages_fields (customer_name : string) (items : list item)
    (paid : Q) (utcnow now : timestamp) (db : database) :
  let st := bill_stages customer_name items paid utcnow now db in
  let cid := st_customer_id st in
  let d := st_details st in
  (cid, st_registered st) = registered (strip customer_name) utcnow db
  /\ d = bill_compute (fst (ledger_of cid (st_registered st)))
           (snd (ledger_of cid (st_registered st))) items paid
  /\ (st_serial st, st_billed st) = billed cid now d (st_registered st)
  /\ st_settled st = sql_update_ledger cid (round2 (advance_after d))
                       (round2 (remaining_after d)) (st_billed st).
Proof.
  unfold bill_stages.
  destruct (registered (strip customer_name) utcnow db) as [cid db1].
  destruct (ledger_of cid db1) as [adv rem] eqn:L.
  destruct (billed cid now _ db1) as [bill_id db2] eqn:B. simpl.
  rewrite L. simpl. rewrite B. auto.
Qed.

Lemma bill_stages_tables (customer_name : string) (items : list item)
    (paid : Q) (utcnow now : timestamp) (db : database) :
  let st := bill_stages customer_name items paid utcnow now db in
  let cid := st_customer_id st in
  let d := st_details st in
  (bills (st_registered st) = bills db
   /\ bill_items (st_registered st) = bill_items db)
  /\ (bills (st_billed st)
      = bills db ++ [mkBill (st_serial st) cid now (subtotal d)
                       (advance_applied d) (amount_paid d)
                       (remaining_after d) (advance_after d)]
      /\ (exists rows, bill_items (st_billed st) = bill_items db ++ rows
            /\ map row_line rows = lines d
            /\ Forall (fun r => bi_bill_id r = st_serial st) rows)
      /\ ledger (st_billed st) = ledger (st_registered st))
  /\ (bills (st_settled st) = bills (st_billed st)
      /\ bill_items (st_settled st) = bill_items (st_billed st)
      /\ ledger (st_settled st)
         = map (fun row => if Z.eqb (l_customer_id row) cid
                           then mkLedger cid (round2 (advance_after d))
                                  (round2 (remaining_after d))
                           else row) (ledger (st_registered st))).
Proof.
  intros st cid d.
  destruct (bill_stages_fields customer_name items paid utcnow now db)
    as (R & _ & B & S). fold st in R, B, S. fold cid in R, B, S.
  fold d in B, S.
  pose proof (registered_tables (strip customer_name) utcnow db) as RT.
  rewrite <- R in RT. simpl in RT. destruct RT as (_ & RB & RI & _).
  pose proof (billed_tables cid now d (st_registered st)) as BT.
  rewrite <- B in BT. simpl in BT.
  destruct BT as (_ & _ & BL & BB & rows & BI & BM & BF).
  split; [auto |]. split.
  { rewrite BB, RB. split; [reflexivity |]. split; [| exact BL].
    exists rows. rewrite BI, RI. auto. }
  rewrite S. simpl. rewrite BL. auto.
Qed.

(* ------------------------------------------------------------------ *)
(** ** The customer registry *)

Lemma find_none_app {A} (f : A -> bool) (l : list A) (x : A) :
  find f l = None -> f x = true -> find f (l ++ [x]) = Some x.
Proof.
  induction l as [| y l IH]; simpl; intros N T.
  - rewrite T. reflexivity.
  - destruct (f y); [discriminate | auto].
Qed.

Lemma select_none_not_in (name : string) (db : database) :
  select_customer_id name db = None ->
  ~ In name (map c_name (customers db)).
Proof.
  unfold select_customer_id. induction (customers db) as [| r rs IH]; simpl.
  - tauto.
  - destruct (String.eqb_spec (c_name r) name) as [E | NE]; [discriminate |].
    intros N [H | H]; [contradiction | exact (IH N H)].
Qed.

(** Asking again for a name just resolved finds the same customer and
    writes nothing. *)
Lemma registered_again (name : string) (t1 t2 : timestamp) (db : database) :
  registered name t2 (snd (registered name t1 db)) = registered name t1 db.
Proof.
  unfold registered at 2 3.
  destruct (select_customer_id name db) as [cid |] eqn:S; simpl.
  - unfold registered. rewrite S. reflexivity.
  - unfold registered.
    match goal with
    | |- context [sql_insert_or_ignore_ledger ?i ?c] =>
        destruct (insert_or_ignore_ledger_tables i c) as (_ & C & _);
        set (db1 := sql_insert_or_ignore_ledger i c) in *
    end.
    unfold select_customer_id. rewrite C. simpl.
    unfold select_customer_id in S.
    destruct (find _ (customers db)) eqn:F; [discriminate |].
    rewrite (find_none_app _ _ _ F); [reflexivity |].
    simpl. apply String.eqb_refl.
Qed.

Lemma registered_wf (name : string) (utcnow : timestamp) (db : database) :
  strip name = name ->
  customers_wf db -> customers_wf (snd (registered name utcnow db)).
Proof.
  intros St [F N]. unfold registered.
  destruct (select_customer_id name db) as [cid |] eqn:S; simpl.
  - split; assumption.
  - match goal with
    | |- context [sql_insert_or_ignore_ledger ?i ?c] =>
        destruct (insert_or_ignore_ledger_tables i c) as (_ & C & _)
    end.
    unfold customers_wf. rewrite C. simpl. split.
    + apply Forall_app. split; [exact F |].
      constructor; [exact St | constructor].
    + rewrite map_app. simpl. apply NoDup_app.
      * exact N.
      * constructor; [simpl; tauto | constructor].
      * intros a Ha [<- | []]. exact (select_none_not_in _ _ S Ha).
Qed.

Lemma wf_unique_stripped (db : database) :
  customers_wf db ->
  NoDup (map (fun r => strip (c_name r)) (customers db)).
Proof.
  intros [F N].
  rewrite (map_ext_in (fun r => strip (c_name r)) c_name); [exact N |].
  intros r Hr. rewrite Forall_forall in F. exact (F r Hr).
Qed.

(* ------------------------------------------------------------------ *)
(** ** The ledger store and its invariant *)

Lemma select_after_update (customer_id : Z) (a r : Q) (db : database) :
  select_ledger customer_id db <> None ->
  select_ledger customer_id (sql_update_ledger customer_id a r db)
  = Some (a, r).
Proof.
  unfold select_ledger, sql_update_ledger. simpl.
  induction (ledger db) as [| row rows IH]; simpl; [congruence |].
  destruct (Z.eqb (l_customer_id row) customer_id) eqn:E; simpl.
  - rewrite Z.eqb_refl. reflexivity.
  - rewrite E. exact IH.
Qed.

Lemma update_without_row (customer_id : Z) (a r : Q) (db : database) :
  select_ledger customer_id db = None ->
  ledger (sql_update_ledger customer_id a r db) = ledger db.
Proof.
  unfold select_ledger, sql_update_ledger. simpl.
  induction (ledger db) as [| row rows IH]; simpl; [reflexivity |].
  destruct (Z.eqb (l_customer_id row) customer_id); simpl; [discriminate |].
  intros N. rewrite (IH N). reflexivity.
Qed.

Lemma ledger_of_ok (customer_id : Z) (db : database) :
  ledger_ok db ->
  0 <= fst (ledger_of customer_id db) /\ 0 <= snd (ledger_of customer_id db)
  /\ two_dp (fst (ledger_of customer_id db))
  /\ two_dp (snd (ledger_of customer_id db)).
Proof.
  intros L. unfold ledger_of, select_ledger.
  destruct (find _ (ledger db)) as [row |] eqn:F; simpl.
  - apply find_some in F. destruct F as [I _].
    unfold ledger_ok in L. rewrite Forall_forall in L. exact (L row I).
  - repeat split; try lra; exact two_dp_0.
Qed.

Lemma registered_ledger_ok (name : string) (utcnow : timestamp)
    (db : database) :
  ledger_ok db -> ledger_ok (snd (registered name utcnow db)).
Proof.
  intros L. unfold ledger_ok.
  destruct (registered_tables name utcnow db) as (_ & _ & _ & [E | E]);
    rewrite E; [exact L |].
  apply Forall_app. split; [exact L |]. constructor; [| constructor].
  unfold ledger_row_ok. simpl. repeat split; try lra; exact two_dp_0.
Qed.

Lemma update_ledger_ok (customer_id : Z) (a r : Q) (db : database) :
  0 <= a -> 0 <= r ->
  ledger_ok db ->
  ledger_ok (sql_update_ledger customer_id (round2 a) (round2 r) db).
Proof.
  intros Ha Hr L. unfold ledger_ok, sql_update_ledger. simpl.
  apply Forall_map. unfold ledger_ok in L.
  rewrite Forall_forall in *. intros row I.
  destruct (Z.eqb (l_customer_id row) customer_id); [| exact (L row I)].
  unfold ledger_row_ok. simpl.
  repeat split; try apply round2_nonneg; try apply two_dp_round2; assumption.
Qed.

(** Every ledger [create_bill] leaves behind, returning or raising, is
    non-negative with two decimals: the prior state of the next bill is
    a ledger state of the data model. *)
Lemma create_bill_keeps_ledger_ok (customer_name : string)
    (items : list item) (paid : Q) (utcnow now : timestamp) (w : world) :
  ledger_ok (disk w) ->
  ledger_ok (disk (snd (create_bill customer_name items paid utcnow now w))).
Proof.
  intros L.
  set (st := bill_stages customer_name items paid utcnow now (disk w)).
  destruct (bill_stages_fields customer_name items paid utcnow now (disk w))
    as (R & D & _ & S). fold st in R, D, S.
  destruct (bill_stages_tables customer_name items paid utcnow now (disk w))
    as (_ & (_ & _ & BL) & _). fold st in BL.
  assert (L1 : ledger_ok (st_registered st)).
  { pose proof (registered_ledger_ok (strip customer_name) utcnow _ L) as H.
    rewrite <- R in H. exact H. }
  assert (L2 : ledger_ok (st_billed st)).
  { unfold ledger_ok. rewrite BL. exact L1. }
  assert (L3 : ledger_ok (st_settled st)).
  { rewrite S.
    destruct (ledger_of_ok (st_customer_id st) _ L1) as (_ & Hr & _).
    apply update_ledger_ok; [| | exact L2]; rewrite D.
    - apply (balances_nonneg _ _ items paid Hr).
    - apply (balances_nonneg _ _ items paid Hr). }
  pose proof (create_bill_durable customer_name items paid utcnow now w) as H.
  cbv zeta in H. fold st in H.
  destruct (create_bill customer_name items paid utcnow now w)
    as [[v | e] w']; simpl.
  - destruct H as [_ ->]. exact L3.
  - destruct H as [-> | [-> | ->]]; assumption.
Qed.


(* ------------------------------------------------------------------ *)
(** ** The billing engine (C1, C2, C3, C10) *)

(** The inputs of scenarios A, B and C of the specification, run on the
    code.  In B the advance covers the bill and nothing is paid:
    [after_payment] is 0 and 5.00 of the advance is left. *)
Example scenario_A :
  let d := bill_compute 0 0 [mkItem "500ML" 10 5; mkItem "6LTR" 2 50] 100 in
  subtotal d == 150 /\ advance_applied d == 0
  /\ remaining_after d == 50 /\ advance_after d == 0.
Proof. vm_compute. repeat split. Qed.

Example scenario_B :
  let d := bill_compute 20 0 [mkItem "500ML" 3 5] 0 in
  subtotal d == 15 /\ advance_applied d == 15
  /\ remaining_after d == 0 /\ advance_after d == 5.
Proof. vm_compute. repeat split. Qed.

Example scenario_C :
  let d := bill_compute 0 30 [mkItem "6LTR" 1 30] 30 in
  subtotal d == 30 /\ advance_applied d == 0
  /\ remaining_after d == 30 /\ advance_after d == 0.
Proof. vm_compute. repeat split. Qed.

(** C1. The reconciliation computed by [create_bill] (the accumulating
    loop, [min], [max], [abs] and the two branches) is the algorithm of
    section 4.3 of the specification: rounded sum of the rounded totals of
    the surviving items, advance applied first and capped by the subtotal,
    payment clamped at zero, debt or advance grown by what is left, both
    rounded to two decimals.  It holds for all prior states, also
    negative ones. *)
Theorem create_bill_follows_spec (adv rem : Q) (items : list item) (paid : Q) :
  bill_compute adv rem items paid = spec_reconcile adv rem items paid.
Proof.
  rewrite bill_compute_unfold. unfold spec_reconcile. cbv zeta.
  set (sub := round2 _). set (aa := py_min adv sub).
  set (pay := py_max 0 paid). set (ap := sub - aa - pay).
  destruct (Qltb 0 ap) eqn:B; [reflexivity |].
  f_equal. apply round2_proper.
  apply Qltb_ge in B. rewrite (Qabs_nonpos ap B). reflexivity.
Qed.

(** C2, as stated, fails: a customer in debt (remaining 30.00, no
    advance) who buys for 30.00 and hands over 100.00 leaves with an
    advance of 70.00 and the old debt of 30.00, both non-zero. *)
Lemma overpaying_debtor_holds_both :
  let d := bill_compute 0 30 [mkItem "6LTR BOTTLE" 1 30] 100 in
  (0 <= 0 /\ 0 <= 30) /\ (0 == 0 \/ 30 == 0) /\ 0 < subtotal d
  /\ advance_after d == 70 /\ remaining_after d == 30
  /\ ~ (advance_after d == 0 \/ remaining_after d == 0).
Proof.
  vm_compute. repeat split; try discriminate; try (left; reflexivity).
  intros [H | H]; discriminate H.
Qed.

(** C2, amended.  From non-negative balances a bill leaves non-negative
    balances; and when at most one of the prior balances is non-zero and
    the subtotal is positive, at most one is non-zero afterwards provided
    the customer had no debt or does not pay more than what the bill
    still asks after the advance. *)
Theorem balances_after_bill (adv rem : Q) (items : list item) (paid : Q) :
  0 <= adv -> 0 <= rem ->
  let d := bill_compute adv rem items paid in
  (0 <= advance_after d /\ 0 <= remaining_after d)
  /\ (adv == 0 \/ rem == 0 ->
      0 < subtotal d ->
      rem == 0 \/ amount_paid d <= subtotal d - advance_applied d ->
      advance_after d == 0 \/ remaining_after d == 0).
Proof.
  intros Ha Hr d. split.
  - apply balances_nonneg. exact Hr.
  - intros X _ P. apply balances_exclusive; assumption.
Qed.

Lemma balances_after_bill_witness :
  let d := bill_compute 0 30 [mkItem "6LTR BOTTLE" 1 30] 30 in
  (0 <= advance_after d /\ 0 <= remaining_after d)
  /\ (advance_after d == 0 \/ remaining_after d == 0).
Proof.
  destruct (balances_after_bill 0 30 [mkItem "6LTR BOTTLE" 1 30] 30)
    as [N X]; [lra | lra |].
  split; [exact N |]. apply X.
  - left. reflexivity.
  - vm_compute. reflexivity.
  - right. vm_compute. discriminate.
Defined.




(** C10.  A bill whose items are all filtered out (or that has none) has
    subtotal 0: no advance is applied, the prior debt stays as it is, and
    the whole clamped payment is added to the advance.  The prior state
    is a ledger state of the data model: advance not negative, debt
    stored with two decimals (without which the debt comes back
    rounded). *)
Theorem empty_bill_banks_payment (adv rem : Q) (items : list item) (paid : Q) :
  0 <= adv -> two_dp rem ->
  Forall (fun it => it_qty it <= 0 \/ it_price it < 0) items ->
  let d := bill_compute adv rem items paid in
  lines d = [] /\ subtotal d == 0 /\ advance_applied d == 0
  /\ remaining_after d == rem
  /\ advance_after d = round2 (adv + py_max 0 paid).
Proof.
  intros Ha Dr F d. unfold d. rewrite bill_compute_unfold.
  rewrite (all_excluded items F). cbn [map Qsum fold_right]. fields.
  set (sub := round2 0). set (aa := py_min adv sub).
  set (pay := py_max 0 paid). set (ap := sub - aa - pay).
  assert (S : sub == 0) by exact round2_0.
  assert (A : aa == 0).
  { destruct (py_min_cases adv sub) as [[L E] | [L E]]; fold aa in E; lra. }
  assert (P : 0 <= pay).
  { unfold pay. destruct (py_max_cases 0 paid) as [[L E] | [L E]]; lra. }
  assert (B : Qltb 0 ap = false). { apply Qltb_ge. unfold ap. lra. }
  rewrite B. repeat split; try assumption.
  apply round2_proper. apply Qltb_ge in B.
  rewrite (Qabs_nonpos ap B). unfold ap. lra.
Qed.

Lemma empty_bill_banks_payment_witness :
  let d := bill_compute 5 30
             [mkItem "500ML PACK" 0 5; mkItem "6LTR BOTTLE" 2 (-50)] 100 in
  lines d = [] /\ subtotal d == 0 /\ advance_applied d == 0
  /\ remaining_after d == 30 /\ advance_after d = round2 (5 + py_max 0 100).
Proof.
  apply (empty_bill_banks_payment 5 30
           [mkItem "500ML PACK" 0 5; mkItem "6LTR BOTTLE" 2 (-50)] 100).
  - lra.
  - vm_compute. reflexivity.
  - constructor; [left; vm_compute; congruence |].
    constructor; [right; vm_compute; congruence | constructor].
Defined.

(* ------------------------------------------------------------------ *)
(** ** Persistence of a bill (C4, C7) *)

(** C4, as stated, fails.  A first bill of 30.00, nothing paid, in an
    empty database; the ninth statement, the UPDATE of [update_ledger],
    fails.  [create_bill] raises, the bill (remaining 30.00) and its item
    are on disk, and the ledger still says 0 and 0. *)
Lemma bill_persisted_ledger_stale :
  let w := mkWorld empty_db (Some 8%nat) in
  let '(r, w') := create_bill "Ali" [mkItem "6LTR BOTTLE" 1 30] 0
                    "2025-01-01T09:00:00"%string
                    "2025-01-01T14:00:00"%string w in
  r = Raise OperationalError
  /\ bills (disk w)  = []
  /\ map b_remaining_after (bills (disk w')) = [3000 # 100]
  /\ map bi_bill_id (bill_items (disk w')) = [1%Z]
  /\ ledger (disk w') = [mkLedger 1 0 0].
Proof. vm_compute. repeat split. Qed.

(** C4, amended.  [create_bill] commits three times, on three
    connections: the customer (with a zero ledger row) when the name is
    new, then the bill row together with all its item rows, then the
    ledger update.  The bill and its items persist together or not at
    all; the ledger update is a later transaction of its own.  Whatever
    statement fails, the database is left as it was, or with only the
    customer registered, or with the bill and its items committed and the
    ledger not yet updated; when [create_bill] returns, bill, items and
    updated ledger are all there. *)
Theorem create_bill_persistence (customer_name : string) (items : list item)
    (paid : Q) (utcnow now : timestamp) (w : world) :
  let db := disk w in
  let st := bill_stages customer_name items paid utcnow now db in
  let cid := st_customer_id st in
  let d := st_details st in
  (bills (st_registered st) = bills db
   /\ bill_items (st_registered st) = bill_items db)
  /\ (bills (st_billed st)
      = bills db ++ [mkBill (st_serial st) cid now (subtotal d)
                       (advance_applied d) (amount_paid d)
                       (remaining_after d) (advance_after d)]
      /\ (exists rows, bill_items (st_billed st) = bill_items db ++ rows
            /\ map row_line rows = lines d
            /\ Forall (fun r => bi_bill_id r = st_serial st) rows)
      /\ ledger (st_billed st) = ledger (st_registered st))
  /\ (bills (st_settled st) = bills (st_billed st)
      /\ bill_items (st_settled st) = bill_items (st_billed st)
      /\ ledger (st_settled st)
         = map (fun row => if Z.eqb (l_customer_id row) cid
                           then mkLedger cid (round2 (advance_after d))
                                  (round2 (remaining_after d))
                           else row) (ledger (st_registered st)))
  /\ match create_bill customer_name items paid utcnow now w with
     | (Ok v, w') => v = (st_serial st, d) /\ disk w' = st_settled st
     | (Raise _, w') =>
         disk w' = db \/ disk w' = st_registered st
         \/ disk w' = st_billed st
     end.
Proof.
  intros db st cid d.
  destruct (bill_stages_tables customer_name items paid utcnow now db)
    as (T1 & T2 & T3).
  split; [exact T1 |]. split; [exact T2 |]. split; [exact T3 |].
  apply create_bill_durable.
Qed.

Example excluded_items_run :
  let '(r, w') := create_bill "Ali"
      [mkItem "500ML PACK" 0 5; mkItem "1.5LTR PACK" 3 (-2);
       mkItem "6LTR BOTTLE" 2 50] 100 "t0"%string "t1"%string
      (quiet empty_db) in
  map bi_item_name (bill_items (disk w')) = ["6LTR BOTTLE"%string]
  /\ map b_subtotal (bills (disk w')) = [10000 # 100].
Proof. vm_compute. repeat split. Qed.

(** C7.  An item with quantity <= 0 or price < 0 is dropped without an
    error: [create_bill] returns for any item list (the name being
    non-empty); the lines it bills are, in order, the items with quantity
    > 0 and price >= 0, each with total [round(qty * price, 2)]; the
    subtotal is the rounded sum of those totals; and the rows added to
    [bill_items] are those lines and no others. *)
Theorem excluded_items_leave_no_trace (customer_name : string)
    (items : list item) (paid : Q) (utcnow now : timestamp) (db : database) :
  strip customer_name <> ""%string ->
  exists serial d db' rows,
    create_bill customer_name items paid utcnow now (quiet db)
    = (Ok (serial, d), quiet db')
    /\ lines d = map spec_line (filter spec_survives items)
    /\ (forall it, spec_survives it = true
                   <-> 0 < it_qty it /\ 0 <= it_price it)
    /\ subtotal d = round2 (Qsum (map ln_total (lines d)))
    /\ bill_items db' = bill_items db ++ rows
    /\ map row_line rows = lines d
    /\ Forall (fun r => bi_bill_id r = serial) rows.
Proof.
  intros NE.
  set (st := bill_stages customer_name items paid utcnow now db).
  destruct (bill_stages_tables customer_name items paid utcnow now db)
    as (_ & (_ & (rows & I & M & F) & _) & (_ & S & _)).
  fold st in I, M, F, S.
  exists (st_serial st), (st_details st), (st_settled st), rows.
  destruct (bill_stages_fields customer_name items paid utcnow now db)
    as (_ & D & _). fold st in D.
  split; [apply create_bill_quiet; exact NE |].
  split; [rewrite D; apply bill_compute_lines |].
  split; [exact spec_survives_iff |].
  split; [rewrite D; apply bill_compute_subtotal |].
  rewrite S. auto.
Qed.

Lemma excluded_items_leave_no_trace_witness :
  exists serial d db' rows,
    create_bill "Ali"
      [mkItem "500ML PACK" 0 5; mkItem "1.5LTR PACK" 3 (-2);
       mkItem "6LTR BOTTLE" 2 50] 100 "t0"%string "t1"%string
      (quiet empty_db)
    = (Ok (serial, d), quiet db')
    /\ lines d
       = map spec_line
           (filter spec_survives
              [mkItem "500ML PACK" 0 5; mkItem "1.5LTR PACK" 3 (-2);
               mkItem "6LTR BOTTLE" 2 50])
    /\ (forall it, spec_survives it = true
                   <-> 0 < it_qty it /\ 0 <= it_price it)
    /\ subtotal d = round2 (Qsum (map ln_total (lines d)))
    /\ bill_items db' = bill_items empty_db ++ rows
    /\ map row_line rows = lines d
    /\ Forall (fun r => bi_bill_id r = serial) rows.
Proof.
  apply (excluded_items_leave_no_trace "Ali"
           [mkItem "500ML PACK" 0 5; mkItem "1.5LTR PACK" 3 (-2);
            mkItem "6LTR BOTTLE" 2 50] 100 "t0"%string "t1"%string
           empty_db).
  vm_compute. discriminate.
Defined.

(* ------------------------------------------------------------------ *)
(** ** Customers and ledger (C5, C6) *)

(** C5, as stated, fails: "Ali " and "ali" are equal once trimmed and
    lower-cased, and they become customers 1 and 2. *)
Lemma names_differing_in_case_are_two_customers :
  lower (strip "Ali ") = lower (strip "ali")
  /\ let '(r1, w1) := get_or_create_customer "Ali " "t0"%string
                        (quiet empty_db) in
     let '(r2, w2) := get_or_create_customer "ali" "t1"%string w1 in
     r1 = Ok 1%Z /\ r2 = Ok 2%Z
     /\ map c_name (customers (disk w2)) = ["Ali"; "ali"]%string.
Proof. vm_compute. repeat split. Qed.

(** C5, amended.  Names are trimmed and compared byte for byte: two
    names that are equal after trimming whitespace (letter case counts)
    resolve to the same customer id, and no two customers with the same
    trimmed name come to exist. *)
Theorem customer_names_are_trimmed (n1 n2 : string) (t1 t2 : timestamp)
    (db : database) :
  strip n1 = strip n2 -> strip n1 <> ""%string ->
  exists cid db1,
    get_or_create_customer n1 t1 (quiet db) = (Ok cid, quiet db1)
    /\ get_or_create_customer n2 t2 (quiet db1) = (Ok cid, quiet db1)
    /\ (customers_wf db ->
        customers_wf db1
        /\ NoDup (map (fun r => strip (c_name r)) (customers db1))).
Proof.
  intros E NE.
  exists (fst (registered (strip n1) t1 db)),
         (snd (registered (strip n1) t1 db)).
  split; [| split].
  - apply transaction_quiet.
    apply (get_or_create_customer_transaction n1 t1 (quiet db) NE).
  - assert (NE2 : strip n2 <> ""%string) by (rewrite <- E; exact NE).
    pose proof (get_or_create_customer_transaction n2 t2
                  (quiet (snd (registered (strip n1) t1 db))) NE2) as T.
    simpl in T. rewrite <- E, registered_again in T.
    apply transaction_quiet. exact T.
  - intros W.
    assert (W1 : customers_wf (snd (registered (strip n1) t1 db))).
    { apply registered_wf; [apply strip_idem | exact W]. }
    split; [exact W1 | apply wf_unique_stripped; exact W1].
Qed.

Lemma customer_names_are_trimmed_witness :
  exists cid db1,
    get_or_create_customer "Ali " "t0"%string (quiet empty_db)
    = (Ok cid, quiet db1)
    /\ get_or_create_customer "  Ali" "t1"%string (quiet db1)
       = (Ok cid, quiet db1)
    /\ customers_wf db1
    /\ NoDup (map (fun r => strip (c_name r)) (customers db1)).
Proof.
  destruct (customer_names_are_trimmed "Ali " "  Ali" "t0"%string
              "t1"%string empty_db) as (cid & db1 & G1 & G2 & W).
  - reflexivity.
  - vm_compute. discriminate.
  - exists cid, db1. split; [exact G1 |]. split; [exact G2 |].
    apply W. split; constructor.
Defined.

(** C6, as stated, fails on negative arguments: [update_ledger(1, -5,
    -1/3)] returns normally and the row of customer 1 holds -5.00 and
    -0.33. *)
Lemma negative_balances_are_stored :
  let db := snd (registered "Ali" "t0"%string empty_db) in
  let '(r, w') := update_ledger 1 (-5) (- (1 # 3)) (quiet db) in
  (-5 < 0 /\ - (1 # 3) < 0)
  /\ r = Ok tt
  /\ ledger db = [mkLedger 1 0 0]
  /\ ledger (disk w') = [mkLedger 1 (-500 # 100) (-33 # 100)].
Proof. vm_compute. repeat split. Qed.

(** C6, amended.  [update_ledger] rounds both arguments to two decimals
    and stores them in the row of the customer, whatever their sign: it
    validates nothing and raises no [ValueError]; only a failing
    statement makes it raise.  A customer without a ledger row gets
    none. *)
Theorem update_ledger_rounds_and_stores (customer_id : Z) (a r : Q) :
  (forall w,
      fst (update_ledger customer_id a r w) = Ok tt
      \/ fst (update_ledger customer_id a r w) = Raise OperationalError)
  /\ forall db,
      let db' := sql_update_ledger customer_id (round2 a) (round2 r) db in
      update_ledger customer_id a r (quiet db) = (Ok tt, quiet db')
      /\ (select_ledger customer_id db <> None ->
          get_ledger customer_id (quiet db')
          = (Ok (round2 a, round2 r), quiet db'))
      /\ (select_ledger customer_id db = None -> ledger db' = ledger db).
Proof.
  split; [intros w; apply update_ledger_result |].
  intros db db'. split; [| split].
  - apply transaction_quiet.
    apply (update_ledger_transaction customer_id a r (quiet db)).
  - intros S.
    rewrite (transaction_quiet _ _ _ _
               (get_ledger_transaction customer_id (quiet db'))).
    simpl. unfold ledger_of, db'.
    rewrite (select_after_update _ _ _ _ S). reflexivity.
  - apply update_without_row.
Qed.

Lemma update_ledger_rounds_and_stores_witness :
  let db := snd (registered "Ali" "t0"%string empty_db) in
  let db' := sql_update_ledger 1 (round2 (1234567 # 100000)) (round2 (-3)) db in
  update_ledger 1 (1234567 # 100000) (-3) (quiet db) = (Ok tt, quiet db')
  /\ get_ledger 1 (quiet db')
     = (Ok (round2 (1234567 # 100000), round2 (-3)), quiet db').
Proof.
  intros db db'.
  destruct (update_ledger_rounds_and_stores 1 (1234567 # 100000) (-3))
    as [_ H].
  destruct (H db) as (U & G & _).
  split; [exact U |]. apply G. vm_compute. discriminate.
Defined.

(* ------------------------------------------------------------------ *)
(** ** The admin page (C9) *)

(** C9.  Pressing "Delete All Business Data" empties customers, ledger,
    bills and bill items, and leaves the users table as it was; whether
    the button is pressed or not, and whether a statement fails or not,
    the users table is never touched. *)
Theorem wipe_keeps_users (db : database) :
  (exists db',
      page_admin true (quiet db) = (Ok tt, quiet db')
      /\ customers db' = [] /\ ledger db' = []
      /\ bills db' = [] /\ bill_items db' = []
      /\ users db' = users db)
  /\ forall clicked w,
      users (disk (snd (page_admin clicked w))) = users (disk w).
Proof.
  split.
  - eexists. split.
    + apply transaction_quiet. apply (page_admin_transaction (quiet db)).
    + simpl. auto.
  - intros [|] w; [| reflexivity].
    pose proof (page_admin_transaction w) as T. unfold transaction in T.
    destruct (page_admin true w) as [[[] | e] w']; simpl.
    + destruct T as (_ & -> & _). reflexivity.
    + destruct T as [-> _]. reflexivity.
Qed.

(* ------------------------------------------------------------------ *)
(** ** Rounding is monotone *)

Lemma compare_half_cases (x : Q) (f : Z) :
  (Qcompare (x - inject_Z f) (1 # 2) = Lt /\ x - inject_Z f < 1 # 2)
  \/ (Qcompare (x - inject_Z f) (1 # 2) = Eq /\ x - inject_Z f == 1 # 2)
  \/ (Qcompare (x - inject_Z f) (1 # 2) = Gt /\ 1 # 2 < x - inject_Z f).
Proof.
  destruct (Qcompare (x - inject_Z f) (1 # 2)) eqn:C.
  - right; left. split; [reflexivity | apply Qeq_alt; exact C].
  - left. split; [reflexivity | apply Qlt_alt; exact C].
  - right; right. split; [reflexivity | apply Qgt_alt; exact C].
Qed.

Lemma round_half_even_bounds (x : Q) :
  (Qfloor x <= round_half_even x <= Qfloor x + 1)%Z.
Proof.
  unfold round_half_even.
  destruct (Qcompare (x - inject_Z (Qfloor x)) (1 # 2));
    [destruct (Z.even (Qfloor x)) | |]; lia.
Qed.

Lemma round_half_even_mono (x y : Q) :
  x <= y -> (round_half_even x <= round_half_even y)%Z.
Proof.
  intros L. pose proof (Qfloor_resp_le x y L) as F.
  destruct (Z.eq_dec (Qfloor x) (Qfloor y)) as [E | N].
  - unfold round_half_even. rewrite E.
    destruct (compare_half_cases x (Qfloor y)) as [[-> X] | [[-> X] | [-> X]]];
      destruct (compare_half_cases y (Qfloor y))
        as [[-> Y] | [[-> Y] | [-> Y]]];
      try destruct (Z.even (Qfloor y)); try lia; exfalso; lra.
  - pose proof (round_half_even_bounds x).
    pose proof (round_half_even_bounds y).
    lia.
Qed.

Lemma round2_mono (x y : Q) : x <= y -> round2 x <= round2 y.
Proof.
  intros L. unfold round2.
  assert (M : (round_half_even (x * 100) <= round_half_even (y * 100))%Z).
  { apply round_half_even_mono. lra. }
  unfold Qle. simpl. lia.
Qed.

Lemma filter_excluded_middle (l1 bad l2 : list item) :
  Forall (fun it => it_qty it <= 0 \/ it_price it < 0) bad ->
  filter spec_survives (l1 ++ bad ++ l2) = filter spec_survives (l1 ++ l2).
Proof.
  intros F. rewrite !filter_app, (all_excluded bad F). reflexivity.
Qed.

(* ------------------------------------------------------------------ *)
(** ** More on the computation of [create_bill] *)

(** X1. The debt of a customer never goes down with a bill, whatever is paid:
    the new remaining is at least the old one (rounded as the ledger
    stores it). *)
Theorem debt_never_shrinks (adv rem : Q) (items : list item) (paid : Q) :
  round2 rem <= remaining_after (bill_compute adv rem items paid)
  /\ (two_dp rem -> rem <= remaining_after (bill_compute adv rem items paid)).
Proof.
  assert (M : round2 rem <= remaining_after (bill_compute adv rem items paid)).
  { rewrite bill_compute_unfold. fields. name_parts adv paid.
    apply round2_mono.
    destruct (Qltb 0 ap) eqn:B; [apply Qltb_lt in B |]; lra. }
  split; [exact M |]. intros D. unfold two_dp in D. lra.
Qed.

Lemma debt_never_shrinks_witness :
  let d := bill_compute 0 30 [mkItem "6LTR BOTTLE" 1 30] 100 in
  round2 30 <= remaining_after d /\ 30 <= remaining_after d.
Proof.
  destruct (debt_never_shrinks 0 30 [mkItem "6LTR BOTTLE" 1 30] 100)
    as [A B].
  split; [exact A |]. apply B. vm_compute. reflexivity.
Defined.

(** X3. Items with quantity <= 0 or price < 0, wherever they stand in the
    list, change nothing in what [create_bill] computes. *)
Theorem excluded_items_change_nothing (adv rem : Q) (l1 bad l2 : list item)
    (paid : Q) :
  Forall (fun it => it_qty it <= 0 \/ it_price it < 0) bad ->
  bill_compute adv rem (l1 ++ bad ++ l2) paid
  = bill_compute adv rem (l1 ++ l2) paid.
Proof.
  intros F. rewrite !bill_compute_unfold. cbv zeta.
  rewrite (filter_excluded_middle l1 bad l2 F). reflexivity.
Qed.

Lemma excluded_items_change_nothing_witness :
  bill_compute 5 0
    ([mkItem "500ML PACK" 2 5] ++ [mkItem "1.5LTR PACK" 0 9;
                                    mkItem "1.5LTR PACK" 1 (-9)]
     ++ [mkItem "6LTR BOTTLE" 1 50]) 20
  = bill_compute 5 0
      ([mkItem "500ML PACK" 2 5] ++ [mkItem "6LTR BOTTLE" 1 50]) 20.
Proof.
  apply (excluded_items_change_nothing 5 0 [mkItem "500ML PACK" 2 5]
           [mkItem "1.5LTR PACK" 0 9; mkItem "1.5LTR PACK" 1 (-9)]
           [mkItem "6LTR BOTTLE" 1 50] 20).
  constructor; [left; vm_compute; congruence |].
  constructor; [right; vm_compute; congruence | constructor].
Defined.

(* ------------------------------------------------------------------ *)
(** ** Keys *)

Lemma max_key_ge_seq (seq : Z) (ids : list Z) :
  (seq <= fold_right Z.max seq ids)%Z.
Proof. induction ids as [| i ids IH]; simpl; lia. Qed.

Lemma max_key_ge (seq : Z) (ids : list Z) (i : Z) :
  In i ids -> (i <= fold_right Z.max seq ids)%Z.
Proof.
  induction ids as [| j ids IH]; simpl; [tauto |].
  intros [-> | H]; [| specialize (IH H)]; lia.
Qed.

Lemma next_id_fresh (seq : Z) (ids : list Z) (i : Z) :
  In i ids -> (i < next_id seq ids)%Z.
Proof. intros H. pose proof (max_key_ge seq ids i H). unfold next_id. lia. Qed.

Lemma next_id_above_seq (seq : Z) (ids : list Z) : (seq < next_id seq ids)%Z.
Proof. pose proof (max_key_ge_seq seq ids). unfold next_id. lia. Qed.

Lemma next_id_not_in (seq : Z) (ids : list Z) : ~ In (next_id seq ids) ids.
Proof. intros H. apply next_id_fresh with (seq := seq) in H. lia. Qed.

Lemma find_app_none {A} (f : A -> bool) (l1 l2 : list A) :
  find f l1 = None -> find f (l1 ++ l2) = find f l2.
Proof.
  induction l1 as [| x l1 IH]; simpl; [reflexivity |].
  destruct (f x); [discriminate | exact IH].
Qed.

Lemma find_app_some {A} (f : A -> bool) (l1 l2 : list A) (x : A) :
  find f l1 = Some x -> find f (l1 ++ l2) = Some x.
Proof.
  induction l1 as [| y l1 IH]; simpl; [discriminate |].
  destruct (f y); [exact (fun H => H) | exact IH].
Qed.

Lemma find_none_iff {A} (f : A -> bool) (l : list A) :
  find f l = None <-> forall x, In x l -> f x = false.
Proof.
  induction l as [| y l IH]; simpl.
  - split; [intros _ x [] | reflexivity].
  - destruct (f y) eqn:E.
    + split; [discriminate |]. intros H. rewrite (H y) in E; [discriminate |].
      left; reflexivity.
    + rewrite IH. split.
      * intros H x [<- | I]; [exact E | exact (H x I)].
      * intros H x I. apply H. right; exact I.
Qed.

Lemma filter_none {A} (f : A -> bool) (l : list A) :
  (forall x, In x l -> f x = false) -> filter f l = [].
Proof.
  induction l as [| y l IH]; simpl; [reflexivity |]. intros H.
  rewrite (H y (or_introl eq_refl)). apply IH. intros x I. apply H.
  right; exact I.
Qed.

(** In a table with a unique key, the rows with a given key are the one
    row that has it. *)
Lemma filter_unique_key {A} (key : A -> Z) (l : list A) (r : A) :
  NoDup (map key l) -> In r l ->
  filter (fun x => Z.eqb (key x) (key r)) l = [r].
Proof.
  induction l as [| y l IH]; simpl; [tauto |].
  intros N I. inversion N as [| k ks NI N']; subst.
  destruct I as [-> | I].
  - rewrite Z.eqb_refl. f_equal. apply filter_none.
    intros x Ix. apply Z.eqb_neq. intros E. apply NI. rewrite <- E.
    apply in_map. exact Ix.
  - destruct (Z.eqb_spec (key y) (key r)) as [E | NE].
    + exfalso. apply NI. rewrite E. apply in_map. exact I.
    + apply IH; assumption.
Qed.

Lemma find_unique_key {A} (key : A -> Z) (l : list A) (r : A) :
  NoDup (map key l) -> In r l ->
  find (fun x => Z.eqb (key x) (key r)) l = Some r.
Proof.
  induction l as [| y l IH]; simpl; [tauto |].
  intros N I. inversion N as [| k ks NI N']; subst.
  destruct I as [-> | I].
  - rewrite Z.eqb_refl. reflexivity.
  - destruct (Z.eqb_spec (key y) (key r)) as [E | NE].
    + exfalso. apply NI. rewrite E. apply in_map. exact I.
    + apply IH; assumption.
Qed.

(* ------------------------------------------------------------------ *)
(** ** [ORDER BY] *)






(* ------------------------------------------------------------------ *)
(** ** The stages of a bill, table by table *)

Lemma existsb_ledger_in (cid : Z) (l : list ledger_row) :
  existsb (fun r => Z.eqb (l_customer_id r) cid) l = true
  <-> In cid (map l_customer_id l).
Proof.
  rewrite existsb_exists, in_map_iff. split.
  - intros (r & I & E). apply Z.eqb_eq in E. exists r. auto.
  - intros (r & E & I). exists r. split; [exact I | apply Z.eqb_eq; exact E].
Qed.

(** Either the name is known and nothing is written, or a customer with
    a fresh key is appended, with a zero ledger row unless that key has
    one. *)
Lemma registered_cases (name : string) (utcnow : timestamp) (db : database) :
  let cid := fst (registered name utcnow db) in
  let db1 := snd (registered name utcnow db) in
  seq_bills db1 = seq_bills db
  /\ ((exists r, find (fun r => String.eqb (c_name r) name) (customers db)
                 = Some r /\ c_id r = cid /\ db1 = db)
      \/ (select_customer_id name db = None
          /\ cid = next_id (seq_customers db) (map c_id (customers db))
          /\ customers db1 = customers db ++ [mkCustomer cid name utcnow]
          /\ ((In cid (map l_customer_id (ledger db))
               /\ ledger db1 = ledger db)
              \/ (~ In cid (map l_customer_id (ledger db))
                  /\ ledger db1 = ledger db ++ [mkLedger cid 0 0])))).
Proof.
  unfold registered, select_customer_id.
  destruct (find _ (customers db)) as [r |] eqn:F; simpl.
  - split; [reflexivity |]. left. exists r. auto.
  - unfold sql_insert_or_ignore_ledger. simpl.
    set (cid := next_id (seq_customers db) (map c_id (customers db))).
    destruct (existsb _ (ledger db)) eqn:E; simpl.
    + split; [reflexivity |]. right. repeat split; try reflexivity.
      left. split; [apply existsb_ledger_in; exact E | reflexivity].
    + split; [reflexivity |]. right. repeat split; try reflexivity.
      right. split; [| reflexivity].
      intros I. apply existsb_ledger_in in I. congruence.
Qed.

(** The customer a bill is made for is in the table afterwards, under
    the stripped name. *)
Lemma registered_in (name : string) (utcnow : timestamp) (db : database) :
  exists r, In r (customers (snd (registered name utcnow db)))
            /\ c_id r = fst (registered name utcnow db) /\ c_name r = name.
Proof.
  destruct (registered_cases name utcnow db)
    as (_ & [(r & F & E & D) | (_ & E & C & _)]).
  - exists r. rewrite D. apply find_some in F. destruct F as [I N].
    apply String.eqb_eq in N. auto.
  - eexists. rewrite C. split; [apply in_or_app; right; left; reflexivity |].
    simpl. auto.
Qed.

Lemma insert_items_seq_bills (bill_id : Z) (lns : list line) (c : conn) :
  seq_bills (fold_left (fun c ln => sql_insert_bill_item bill_id ln c) lns c)
  = seq_bills c.
Proof.
  revert c. induction lns as [| ln lns IH]; intros c; simpl; [reflexivity |].
  rewrite IH. reflexivity.
Qed.

Lemma billed_serial (customer_id : Z) (now : timestamp) (d : details)
    (db : database) :
  fst (billed customer_id now d db)
  = next_id (seq_bills db) (map b_id (bills db))
  /\ seq_bills (snd (billed customer_id now d db))
     = fst (billed customer_id now d db).
Proof.
  unfold billed, sql_insert_bill. simpl. split; [reflexivity |].
  rewrite insert_items_seq_bills. reflexivity.
Qed.

(** The serial of a bill is above every serial in the table and above
    the last one ever given; it is the last one given afterwards. *)
Lemma bill_stages_serial (customer_name : string) (items : list item)
    (paid : Q) (utcnow now : timestamp) (db : database) :
  let st := bill_stages customer_name items paid utcnow now db in
  st_serial st = next_id (seq_bills db) (map b_id (bills db))
  /\ seq_bills (st_settled st) = st_serial st.
Proof.
  intros st.
  destruct (bill_stages_fields customer_name items paid utcnow now db)
    as (R & _ & B & S). fold st in R, B, S.
  destruct (registered_cases (strip customer_name) utcnow db) as (Q1 & _).
  destruct (registered_tables (strip customer_name) utcnow db)
    as (_ & RB & _).
  rewrite <- R in Q1, RB. simpl in Q1, RB.
  destruct (billed_serial (st_customer_id st) now (st_details st)
              (st_registered st)) as (E1 & E2).
  rewrite <- B in E1, E2. simpl in E1, E2.
  rewrite S. simpl. rewrite E2, E1, Q1, RB. auto.
Qed.

(** The customers and the users at the three stages. *)
Lemma bill_stages_customers (customer_name : string) (items : list item)
    (paid : Q) (utcnow now : timestamp) (db : database) :
  let st := bill_stages customer_name items paid utcnow now db in
  customers (st_billed st) = customers (st_registered st)
  /\ customers (st_settled st) = customers (st_registered st)
  /\ users (st_registered st) = users db
  /\ users (st_billed st) = users db
  /\ users (st_settled st) = users db.
Proof.
  intros st.
  destruct (bill_stages_fields customer_name items paid utcnow now db)
    as (R & _ & B & S). fold st in R, B, S.
  destruct (registered_tables (strip customer_name) utcnow db)
    as (RU & _).
  rewrite <- R in RU. simpl in RU.
  destruct (billed_tables (st_customer_id st) now (st_details st)
              (st_registered st)) as (BU & BC & _).
  rewrite <- B in BU, BC. simpl in BU, BC.
  rewrite S. simpl. rewrite BU, BC, RU. auto.
Qed.

Lemma registered_select (name : string) (utcnow : timestamp) (db : database) :
  select_customer_id name (snd (registered name utcnow db))
  = Some (fst (registered name utcnow db)).
Proof.
  pose proof (registered_again name utcnow utcnow db) as A.
  unfold registered at 1 in A.
  destruct (select_customer_id name (snd (registered name utcnow db)))
    as [cid |] eqn:S.
  - rewrite <- A. reflexivity.
  - exfalso.
    destruct (registered_cases name utcnow db)
      as (_ & [(r & F & E & D) | (N & E & C & _)]).
    + rewrite D in S. unfold select_customer_id in S. rewrite F in S.
      discriminate.
    + unfold select_customer_id in S. rewrite C in S.
      unfold select_customer_id in N.
      destruct (find _ (customers db)) eqn:F; [discriminate |].
      rewrite (find_none_app _ _ _ F) in S; [discriminate |].
      simpl. apply String.eqb_refl.
Qed.

Lemma select_customer_same_table (name : string) (db db' : database) :
  customers db' = customers db ->
  select_customer_id name db' = select_customer_id name db.
Proof. unfold select_customer_id. intros ->. reflexivity. Qed.

Lemma registered_known (name : string) (utcnow : timestamp) (db : database)
    (cid : Z) :
  select_customer_id name db = Some cid ->
  registered name utcnow db = (cid, db).
Proof. unfold registered. intros ->. reflexivity. Qed.

Lemma select_ledger_in (cid : Z) (db : database) :
  In cid (map l_customer_id (ledger db)) <-> select_ledger cid db <> None.
Proof.
  unfold select_ledger. rewrite <- existsb_ledger_in.
  induction (ledger db) as [| r l IH]; simpl; [split; congruence |].
  destruct (Z.eqb (l_customer_id r) cid); simpl; [split; congruence |].
  exact IH.
Qed.

Lemma select_ledger_skip_last (c cid : Z) (a r : Q) (l : list ledger_row) :
  c <> cid ->
  find (fun row => Z.eqb (l_customer_id row) c) (l ++ [mkLedger cid a r])
  = find (fun row => Z.eqb (l_customer_id row) c) l.
Proof.
  intros NE. induction l as [| x l IH]; simpl.
  - destruct (Z.eqb_spec cid c); [congruence | reflexivity].
  - destruct (Z.eqb (l_customer_id x) c); [reflexivity | exact IH].
Qed.

Lemma select_update_other (c cid : Z) (a r : Q) (db : database) :
  c <> cid ->
  select_ledger c (sql_update_ledger cid a r db) = select_ledger c db.
Proof.
  intros NE. unfold select_ledger, sql_update_ledger. simpl. f_equal.
  induction (ledger db) as [| x l IH]; simpl; [reflexivity |].
  destruct (Z.eqb_spec (l_customer_id x) cid) as [E | N]; simpl.
  - destruct (Z.eqb_spec cid c); [congruence |].
    destruct (Z.eqb_spec (l_customer_id x) c); [congruence | exact IH].
  - destruct (Z.eqb (l_customer_id x) c); [reflexivity | exact IH].
Qed.

Lemma update_ledger_keys (cid : Z) (a r : Q) (db : database) :
  map l_customer_id (ledger (sql_update_ledger cid a r db))
  = map l_customer_id (ledger db).
Proof.
  unfold sql_update_ledger. simpl. rewrite map_map. apply map_ext_in.
  intros x _. destruct (Z.eqb_spec (l_customer_id x) cid) as [E | N];
    simpl; congruence.
Qed.

Lemma prefix_refl {A} (l : list A) : prefix l l.
Proof. exists []. symmetry. apply app_nil_r. Qed.

Lemma prefix_app {A} (l rest : list A) : prefix l (l ++ rest).
Proof. exists rest. reflexivity. Qed.

Lemma prefix_trans {A} (l1 l2 l3 : list A) :
  prefix l1 l2 -> prefix l2 l3 -> prefix l1 l3.
Proof.
  intros [r1 ->] [r2 ->]. exists (r1 ++ r2). symmetry. apply app_assoc.
Qed.

Lemma untouched_stages (customer_name : string) (items : list item)
    (paid : Q) (utcnow now : timestamp) (db : database) :
  let st := bill_stages customer_name items paid utcnow now db in
  untouched (st_customer_id st) db db
  /\ untouched (st_customer_id st) db (st_registered st)
  /\ untouched (st_customer_id st) db (st_billed st)
  /\ untouched (st_customer_id st) db (st_settled st).
Proof.
  intros st.
  destruct (bill_stages_fields customer_name items paid utcnow now db)
    as (R & _ & _ & S). fold st in R, S.
  destruct (bill_stages_tables customer_name items paid utcnow now db)
    as ((RB & RI) & (BB & (rows & BI & _) & BL) & (SB & SI & _)).
  fold st in RB, RI, BB, BI, BL, SB, SI.
  destruct (bill_stages_customers customer_name items paid utcnow now db)
    as (BC & SC & RU & BU & SU). fold st in BC, SC, RU, BU, SU.
  assert (PC : prefix (customers db) (customers (st_registered st))).
  { destruct (registered_cases (strip customer_name) utcnow db)
      as (_ & [(r & _ & _ & D) | (_ & _ & C & _)]);
      rewrite <- R in *; simpl in *.
    - rewrite D. apply prefix_refl.
    - rewrite C. apply prefix_app. }
  assert (L1 : forall c, c <> st_customer_id st ->
               select_ledger c (st_registered st) = select_ledger c db).
  { intros c NE.
    destruct (registered_cases (strip customer_name) utcnow db)
      as (_ & [(r & _ & _ & D) | (_ & _ & _ & [[_ L] | [_ L]])]);
      rewrite <- R in *; simpl in *.
    - rewrite D. reflexivity.
    - unfold select_ledger. rewrite L. reflexivity.
    - unfold select_ledger. rewrite L, select_ledger_skip_last by exact NE.
      reflexivity. }
  assert (L2 : forall c, select_ledger c (st_billed st)
                         = select_ledger c (st_registered st)).
  { intros c. unfold select_ledger. rewrite BL. reflexivity. }
  unfold untouched. repeat split;
    try apply prefix_refl; try assumption; try reflexivity.
  - rewrite RB. apply prefix_refl.
  - rewrite RI. apply prefix_refl.
  - rewrite BC. exact PC.
  - rewrite BB. apply prefix_app.
  - rewrite BI. apply prefix_app.
  - intros c NE. rewrite L2. apply L1. exact NE.
  - rewrite SC. exact PC.
  - rewrite SB, BB. apply prefix_app.
  - rewrite SI, BI. apply prefix_app.
  - intros c NE. rewrite S, select_update_other by exact NE.
    rewrite L2. apply L1. exact NE.
Qed.

(* ------------------------------------------------------------------ *)
(** ** The schema constraints at each stage *)

Lemma NoDup_snoc {A} (l : list A) (x : A) :
  NoDup l -> ~ In x l -> NoDup (l ++ [x]).
Proof.
  intros N NI. apply NoDup_app; [exact N | |].
  - constructor; [simpl; tauto | constructor].
  - intros a Ia [<- | []]. exact (NI Ia).
Qed.

Lemma Forall_in_weaken {A} (key : A -> Z) (l : list A) (ids ids' : list Z) :
  (forall i, In i ids -> In i ids') ->
  Forall (fun x => In (key x) ids) l -> Forall (fun x => In (key x) ids') l.
Proof.
  intros H F. rewrite Forall_forall in *. intros x I. apply H, F, I.
Qed.

Lemma db_wf_registered (name : string) (utcnow : timestamp) (db : database) :
  db_wf db -> db_wf (snd (registered name utcnow db)).
Proof.
  intros (C & L & B & CL & BC & IB).
  destruct (registered_tables name utcnow db) as (_ & RB & RI & _).
  destruct (registered_cases name utcnow db)
    as (_ & [(r & _ & _ & D) | (_ & E & Cu & Le)]).
  - rewrite D. repeat split; assumption.
  - set (db1 := snd (registered name utcnow db)) in *.
    set (cid := fst (registered name utcnow db)) in *.
    assert (Fresh : ~ In cid (map c_id (customers db))).
    { rewrite E. apply next_id_not_in. }
    assert (Lin : forall i, In i (map l_customer_id (ledger db)) ->
                  In i (map l_customer_id (ledger db1))).
    { intros i I. destruct Le as [[_ ->] | [_ ->]]; [exact I |].
      rewrite map_app. apply in_or_app. left; exact I. }
    assert (Lnew : In cid (map l_customer_id (ledger db1))).
    { destruct Le as [[I ->] | [_ ->]]; [exact I |].
      rewrite map_app. apply in_or_app. right. left. reflexivity. }
    unfold db_wf. rewrite RB, RI, Cu. repeat split.
    + rewrite map_app. simpl. apply NoDup_snoc; assumption.
    + destruct Le as [[_ ->] | [NI ->]]; [exact L |].
      rewrite map_app. simpl. apply NoDup_snoc; assumption.
    + exact B.
    + apply Forall_app. split.
      * apply (Forall_in_weaken c_id _ _ _ Lin CL).
      * constructor; [exact Lnew | constructor].
    + apply (Forall_in_weaken b_customer_id _
               (map c_id (customers db))); [| exact BC].
      intros i I. rewrite map_app. apply in_or_app. left; exact I.
    + exact IB.
Qed.

Lemma db_wf_billed (customer_id : Z) (now : timestamp) (d : details)
    (db : database) :
  In customer_id (map c_id (customers db)) ->
  db_wf db -> db_wf (snd (billed customer_id now d db)).
Proof.
  intros Icid (C & L & B & CL & BC & IB).
  destruct (billed_tables customer_id now d db)
    as (_ & BCu & BL & BB & rows & BI & _ & BF).
  destruct (billed_serial customer_id now d db) as (E & _).
  set (db2 := snd (billed customer_id now d db)) in *.
  set (bill_id := fst (billed customer_id now d db)) in *.
  assert (Bin : forall i, In i (map b_id (bills db)) ->
                In i (map b_id (bills db2))).
  { intros i I. rewrite BB, map_app. apply in_or_app. left; exact I. }
  unfold db_wf. rewrite BCu, BL. repeat split; try assumption.
  - rewrite BB, map_app. simpl. apply NoDup_snoc; [exact B |].
    rewrite E. apply next_id_not_in.
  - rewrite BB. apply Forall_app. split; [exact BC |].
    constructor; [exact Icid | constructor].
  - rewrite BI. apply Forall_app. split.
    + apply (Forall_in_weaken bi_bill_id _ _ _ Bin IB).
    + rewrite Forall_forall in *. intros r I. rewrite (BF r I).
      rewrite BB, map_app. apply in_or_app. right. left. reflexivity.
Qed.

Lemma db_wf_update_ledger (cid : Z) (a r : Q) (db : database) :
  db_wf db -> db_wf (sql_update_ledger cid a r db).
Proof.
  intros (C & L & B & CL & BC & IB). unfold db_wf.
  rewrite update_ledger_keys. simpl. repeat split; assumption.
Qed.

Lemma db_wf_stages (customer_name : string) (items : list item)
    (paid : Q) (utcnow now : timestamp) (db : database) :
  db_wf db ->
  let st := bill_stages customer_name items paid utcnow now db in
  db_wf (st_registered st) /\ db_wf (st_billed st) /\ db_wf (st_settled st).
Proof.
  intros W st.
  destruct (bill_stages_fields customer_name items paid utcnow now db)
    as (R & _ & B & S). fold st in R, B, S.
  assert (W1 : db_wf (st_registered st)).
  { pose proof (db_wf_registered (strip customer_name) utcnow db W) as H.
    rewrite <- R in H. exact H. }
  assert (W2 : db_wf (st_billed st)).
  { pose proof (db_wf_billed (st_customer_id st) now (st_details st)
                  (st_registered st)) as H.
    rewrite <- B in H. apply H; [| exact W1].
    destruct (registered_in (strip customer_name) utcnow db)
      as (r & I & E & _).
    rewrite <- R in I, E. simpl in I, E. rewrite <- E.
    apply in_map. exact I. }
  split; [exact W1 |]. split; [exact W2 |].
  rewrite S. apply db_wf_update_ledger. exact W2.
Qed.

Lemma db_wf_empty : db_wf empty_db.
Proof. unfold db_wf, empty_db. simpl. repeat split; constructor. Qed.

(* ------------------------------------------------------------------ *)
(** ** Users *)

Lemma select_user_none (email : string) (db : database) :
  select_user email db = None <->
  existsb (fun r => String.eqb (u_email r) email) (users db) = false.
Proof.
  unfold select_user. induction (users db) as [| r l IH]; simpl;
    [tauto |].
  destruct (String.eqb (u_email r) email); simpl; [split; discriminate |].
  exact IH.
Qed.

(** [create_user] answers [(True, "")] with the user appended, or
    [(False, "Email already exists")] with nothing written, or raises
    because a statement failed, with nothing written. *)
Lemma create_user_cases (H : hasher) (email password salt : string)
    (utcnow : timestamp) (w : world) :
  let em := strip (lower email) in
  match create_user H email password salt utcnow w with
  | (Ok (true, msg), w') =>
      msg = ""%string /\ select_user em (disk w) = None
      /\ disk w' = with_user em (H password salt) salt utcnow (disk w)
      /\ (budget w = None -> budget w' = None)
  | (Ok (false, msg), w') =>
      msg = "Email already exists"%string
      /\ select_user em (disk w) <> None /\ disk w' = disk w
      /\ (budget w = None -> budget w' = None)
  | (Raise e, w') =>
      e = OperationalError /\ disk w' = disk w /\ budget w <> None
  end.
Proof.
  intros em.
  unfold create_user, except_integrity, execute, commit, close, get_conn,
    ret, bind, step, sql_insert_user. fold em.
  destruct (existsb (fun r => String.eqb (u_email r) em) (users (disk w)))
    eqn:E.
  - assert (S : select_user em (disk w) <> None).
    { rewrite select_user_none. congruence. }
    destruct w as [db [[| k] |]]; simpl in *.
    + repeat split; discriminate.
    + repeat split; try assumption; discriminate.
    + repeat split; assumption.
  - assert (S : select_user em (disk w) = None).
    { rewrite select_user_none. exact E. }
    destruct w as [db [[| [| k]] |]]; simpl in *.
    + repeat split; discriminate.
    + repeat split; discriminate.
    + repeat split; try assumption; discriminate.
    + repeat split; assumption.
Qed.

Lemma verify_user_transaction (H : hasher) (email password : string)
    (w : world) :
  transaction (verify_user H email password)
    (match select_user (strip (lower email)) (disk w) with
     | None => false
     | Some (pw_hash, salt) => String.eqb (H password salt) pw_hash
     end) (disk w) w.
Proof.
  unfold verify_user.
  eapply transaction_bind; [apply transaction_get_conn |]. intros w1 D1.
  eapply transaction_bind; [apply transaction_run |]. intros w2 D2.
  eapply transaction_bind; [apply transaction_close |]. intros w3 D3.
  rewrite <- D1, <- D2, <- D3.
  destruct (select_user (strip (lower email)) (disk w3)) as [[h s] |];
    apply transaction_ret.
Qed.

Lemma select_user_new (email pw_hash salt : string) (t : timestamp)
    (db : database) :
  select_user email db = None ->
  select_user email (with_user email pw_hash salt t db)
  = Some (pw_hash, salt).
Proof.
  unfold select_user, with_user. simpl. intros N.
  destruct (find _ (users db)) eqn:F; [discriminate |].
  rewrite (find_none_app _ _ _ F); [reflexivity |].
  simpl. apply String.eqb_refl.
Qed.

Lemma find_snoc_unmatched {A} (f : A -> bool) (l : list A) (x : A) :
  f x = false -> find f (l ++ [x]) = find f l.
Proof.
  intros N. induction l as [| y l IH]; simpl; [rewrite N; reflexivity |].
  destruct (f y); [reflexivity | exact IH].
Qed.

Lemma select_user_other (e email pw_hash salt : string) (t : timestamp)
    (db : database) :
  e <> email ->
  select_user e (with_user email pw_hash salt t db) = select_user e db.
Proof.
  unfold select_user, with_user. simpl. intros NE. f_equal.
  apply find_snoc_unmatched. simpl. apply String.eqb_neq. congruence.
Qed.

(* ------------------------------------------------------------------ *)
(** ** Bills: errors, serials, frame, constraints *)

(** X4. A customer name that is empty once stripped is refused with
    [ValueError("Customer name required")] before any statement runs:
    by [get_or_create_customer] and by [create_bill], and nothing is
    written. *)
Theorem blank_name_is_refused (customer_name : string) (items : list item)
    (paid : Q) (utcnow now : timestamp) (w : world) :
  strip customer_name = ""%string ->
  get_or_create_customer customer_name utcnow w
  = (Raise (ValueError "Customer name required"), w)
  /\ create_bill customer_name items paid utcnow now w
     = (Raise (ValueError "Customer name required"), w).
Proof.
  intros E. split.
  - apply get_or_create_customer_empty. exact E.
  - apply get_or_create_customer_empty_bill. exact E.
Qed.

Lemma blank_name_is_refused_witness :
  get_or_create_customer "   " "t0"%string (quiet empty_db)
  = (Raise (ValueError "Customer name required"), quiet empty_db)
  /\ create_bill "   " [mkItem "6LTR BOTTLE" 1 30] 30 "t0"%string
       "t1"%string (quiet empty_db)
     = (Raise (ValueError "Customer name required"), quiet empty_db).
Proof.
  apply (blank_name_is_refused "   " [mkItem "6LTR BOTTLE" 1 30] 30
           "t0"%string "t1"%string (quiet empty_db)).
  reflexivity.
Defined.

(** X5. The wipe of the admin page is all or nothing: when it returns,
    the four business tables are empty, the users and the key counters
    are as before; when a statement fails, the database is as it was. *)
Theorem wipe_all_or_nothing (w : world) :
  match page_admin true w with
  | (Ok _, w') =>
      customers (disk w') = [] /\ ledger (disk w') = []
      /\ bills (disk w') = [] /\ bill_items (disk w') = []
      /\ users (disk w') = users (disk w)
      /\ seq_customers (disk w') = seq_customers (disk w)
      /\ seq_bills (disk w') = seq_bills (disk w)
      /\ seq_bill_items (disk w') = seq_bill_items (disk w)
  | (Raise _, w') => disk w' = disk w
  end.
Proof.
  pose proof (page_admin_transaction w) as T. unfold transaction in T.
  destruct (page_admin true w) as [[[] | e] w'].
  - destruct T as (_ & -> & _). simpl. repeat split.
  - destruct T as [D _]. exact D.
Qed.

Lemma page_admin_quiet (clicked : bool) (db : database) :
  exists db', page_admin clicked (quiet db) = (Ok tt, quiet db')
              /\ seq_bills db' = seq_bills db.
Proof.
  destruct clicked.
  - eexists. split.
    + apply transaction_quiet. apply (page_admin_transaction (quiet db)).
    + reflexivity.
  - exists db. split; reflexivity.
Qed.

(** X6. Serials are never reused: the serial of a bill is above every
    serial in the table, and a later bill gets a higher serial, also
    when all business data was wiped in between. *)
Theorem serials_never_reused (n1 n2 : string) (i1 i2 : list item)
    (p1 p2 : Q) (t1 t2 t3 t4 : timestamp) (clicked : bool) (db : database) :
  strip n1 <> ""%string -> strip n2 <> ""%string ->
  exists s1 d1 db1 db2 s2 d2 db3,
    create_bill n1 i1 p1 t1 t2 (quiet db) = (Ok (s1, d1), quiet db1)
    /\ page_admin clicked (quiet db1) = (Ok tt, quiet db2)
    /\ create_bill n2 i2 p2 t3 t4 (quiet db2) = (Ok (s2, d2), quiet db3)
    /\ (forall b, In b (bills db) -> (b_id b < s1)%Z)
    /\ (s1 < s2)%Z.
Proof.
  intros N1 N2.
  set (st1 := bill_stages n1 i1 p1 t1 t2 db).
  destruct (page_admin_quiet clicked (st_settled st1)) as (db2 & PA & SQ).
  set (st2 := bill_stages n2 i2 p2 t3 t4 db2).
  exists (st_serial st1), (st_details st1), (st_settled st1), db2,
         (st_serial st2), (st_details st2), (st_settled st2).
  destruct (bill_stages_serial n1 i1 p1 t1 t2 db) as (E1 & S1).
  destruct (bill_stages_serial n2 i2 p2 t3 t4 db2) as (E2 & _).
  fold st1 in E1, S1. fold st2 in E2.
  split; [apply create_bill_quiet; exact N1 |].
  split; [exact PA |].
  split; [apply create_bill_quiet; exact N2 |].
  split.
  - intros b I. rewrite E1. apply next_id_fresh. apply in_map. exact I.
  - rewrite E2, SQ, S1. apply next_id_above_seq.
Qed.

Lemma serials_never_reused_witness :
  exists s1 d1 db1 db2 s2 d2 db3,
    create_bill "Ali" [mkItem "6LTR BOTTLE" 1 30] 30 "t1"%string
      "t2"%string (quiet empty_db) = (Ok (s1, d1), quiet db1)
    /\ page_admin true (quiet db1) = (Ok tt, quiet db2)
    /\ create_bill "Sara" [mkItem "500ML PACK" 2 5] 0 "t3"%string
         "t4"%string (quiet db2) = (Ok (s2, d2), quiet db3)
    /\ (forall b, In b (bills empty_db) -> (b_id b < s1)%Z)
    /\ (s1 < s2)%Z.
Proof.
  apply (serials_never_reused "Ali" "Sara" [mkItem "6LTR BOTTLE" 1 30]
           [mkItem "500ML PACK" 2 5] 30 0 "t1"%string "t2"%string
           "t3"%string "t4"%string true empty_db);
    vm_compute; discriminate.
Defined.

(** X7. Whatever happens to a bill, returning or raising at any
    statement, [create_bill] leaves the users alone, only appends to
    customers, bills and bill items (rows already there are neither
    changed nor removed), and leaves the ledger entry of every other
    customer as it was. *)
Theorem create_bill_frame (customer_name : string) (items : list item)
    (paid : Q) (utcnow now : timestamp) (w : world) :
  let db := disk w in
  let db' := disk (snd (create_bill customer_name items paid utcnow now w)) in
  let cid := st_customer_id
               (bill_stages customer_name items paid utcnow now db) in
  users db' = users db
  /\ prefix (customers db) (customers db')
  /\ prefix (bills db) (bills db')
  /\ prefix (bill_items db) (bill_items db')
  /\ forall c, c <> cid -> select_ledger c db' = select_ledger c db.
Proof.
  intros db db' cid.
  destruct (untouched_stages customer_name items paid utcnow now db)
    as (U0 & U1 & U2 & U3).
  pose proof (create_bill_durable customer_name items paid utcnow now w) as H.
  cbv zeta in H. unfold db'.
  destruct (create_bill customer_name items paid utcnow now w)
    as [[v | e] w']; simpl.
  - destruct H as [_ ->]. exact U3.
  - destruct H as [-> | [-> | ->]]; assumption.
Qed.

(** X8. The constraints of the schema (unique primary keys, a ledger row
    for every customer, a customer for every bill, a bill for every
    item) hold after [init_db] and are kept by [create_bill] and by the
    admin page, also when a statement fails on the way. *)
Theorem schema_constraints_kept :
  db_wf empty_db
  /\ (forall customer_name items paid utcnow now w,
         db_wf (disk w) ->
         db_wf (disk (snd (create_bill customer_name items paid utcnow now
                             w))))
  /\ (forall clicked w,
         db_wf (disk w) -> db_wf (disk (snd (page_admin clicked w)))).
Proof.
  split; [exact db_wf_empty |]. split.
  - intros customer_name items paid utcnow now w W.
    destruct (db_wf_stages customer_name items paid utcnow now (disk w) W)
      as (W1 & W2 & W3).
    pose proof (create_bill_durable customer_name items paid utcnow now w)
      as H. cbv zeta in H.
    destruct (create_bill customer_name items paid utcnow now w)
      as [[v | e] w']; simpl.
    + destruct H as [_ ->]. exact W3.
    + destruct H as [-> | [-> | ->]]; assumption.
  - intros [|] w W; [| exact W].
    pose proof (page_admin_transaction w) as T. unfold transaction in T.
    destruct (page_admin true w) as [[[] | e] w']; simpl.
    + destruct T as (_ & -> & _). unfold db_wf. simpl.
      repeat split; constructor.
    + destruct T as [-> _]. exact W.
Qed.

Lemma schema_constraints_kept_witness :
  db_wf (disk (snd (create_bill "Ali" [mkItem "6LTR BOTTLE" 1 30] 30
                      "t1"%string "t2"%string
                      (mkWorld empty_db (Some 8%nat)))))
  /\ db_wf (disk (snd (page_admin true (quiet empty_db)))).
Proof.
  destruct schema_constraints_kept as (W0 & WB & WA). split.
  - apply WB. exact W0.
  - apply WA. exact W0.
Defined.

(* ------------------------------------------------------------------ *)
(** ** Bills: what is read back *)

Lemma bill_compute_rounded (adv rem : Q) (items : list item) (paid : Q) :
  round2 (advance_after (bill_compute adv rem items paid))
  = advance_after (bill_compute adv rem items paid)
  /\ round2 (remaining_after (bill_compute adv rem items paid))
     = remaining_after (bill_compute adv rem items paid).
Proof. rewrite bill_compute_unfold. fields. split; apply round2_idem. Qed.

Lemma settled_select_customer (customer_name : string) (items : list item)
    (paid : Q) (utcnow now : timestamp) (db : database) :
  let st := bill_stages customer_name items paid utcnow now db in
  select_customer_id (strip customer_name) (st_settled st)
  = Some (st_customer_id st).
Proof.
  intros st.
  destruct (bill_stages_fields customer_name items paid utcnow now db)
    as (R & _). fold st in R.
  destruct (bill_stages_customers customer_name items paid utcnow now db)
    as (_ & SC & _). fold st in SC.
  rewrite (select_customer_same_table _ _ _ SC).
  pose proof (registered_select (strip customer_name) utcnow db) as H.
  rewrite <- R in H. exact H.
Qed.

Lemma stage_customer_row (customer_name : string) (items : list item)
    (paid : Q) (utcnow now : timestamp) (db : database) :
  let st := bill_stages customer_name items paid utcnow now db in
  exists r, In r (customers (st_registered st))
            /\ c_id r = st_customer_id st
            /\ c_name r = strip customer_name.
Proof.
  intros st.
  destruct (bill_stages_fields customer_name items paid utcnow now db)
    as (R & _). fold st in R.
  destruct (registered_in (strip customer_name) utcnow db) as (r & I & E & N).
  rewrite <- R in I, E. exists r. auto.
Qed.

Lemma settled_ledger (customer_name : string) (items : list item)
    (paid : Q) (utcnow now : timestamp) (db : database) :
  db_wf db ->
  let st := bill_stages customer_name items paid utcnow now db in
  select_ledger (st_customer_id st) (st_settled st)
  = Some (advance_after (st_details st), remaining_after (st_details st)).
Proof.
  intros W st.
  destruct (bill_stages_fields customer_name items paid utcnow now db)
    as (_ & D & _ & S). fold st in D, S.
  destruct (bill_stages_tables customer_name items paid utcnow now db)
    as (_ & (_ & _ & BL) & _). fold st in BL.
  destruct (db_wf_stages customer_name items paid utcnow now db W)
    as ((_ & _ & _ & CL & _) & _). fold st in CL.
  destruct (stage_customer_row customer_name items paid utcnow now db)
    as (r & I & E & _). fold st in I, E.
  rewrite S, select_after_update.
  - rewrite D. destruct (bill_compute_rounded
                           (fst (ledger_of (st_customer_id st)
                                   (st_registered st)))
                           (snd (ledger_of (st_customer_id st)
                                   (st_registered st))) items paid)
      as [-> ->]. reflexivity.
  - apply select_ledger_in. rewrite BL, <- E.
    rewrite Forall_forall in CL. exact (CL r I).
Qed.

Lemma get_or_create_customer_known (name : string) (utcnow : timestamp)
    (db : database) (cid : Z) :
  strip name <> ""%string ->
  select_customer_id (strip name) db = Some cid ->
  get_or_create_customer name utcnow (quiet db) = (Ok cid, quiet db).
Proof.
  intros NE S.
  pose proof (get_or_create_customer_transaction name utcnow (quiet db) NE)
    as T. simpl in T. rewrite (registered_known _ utcnow _ _ S) in T.
  apply transaction_quiet. exact T.
Qed.

Lemma get_ledger_quiet (cid : Z) (db : database) :
  get_ledger cid (quiet db) = (Ok (ledger_of cid db), quiet db).
Proof.
  apply transaction_quiet. apply (get_ledger_transaction cid (quiet db)).
Qed.

(** X9. After a bill, the ledger of its customer holds exactly the
    balances the bill recorded: asking for the customer again gives the
    same id, and [get_ledger] gives [advance_after] and
    [remaining_after]. *)
Theorem ledger_agrees_with_bill (customer_name : string)
    (items : list item) (paid : Q) (t1 t2 t3 : timestamp) (db : database) :
  db_wf db -> strip customer_name <> ""%string ->
  exists serial d db' cid,
    create_bill customer_name items paid t1 t2 (quiet db)
    = (Ok (serial, d), quiet db')
    /\ get_or_create_customer customer_name t3 (quiet db')
       = (Ok cid, quiet db')
    /\ get_ledger cid (quiet db')
       = (Ok (advance_after d, remaining_after d), quiet db').
Proof.
  intros W NE.
  set (st := bill_stages customer_name items paid t1 t2 db).
  exists (st_serial st), (st_details st), (st_settled st),
         (st_customer_id st).
  split; [apply create_bill_quiet; exact NE |]. split.
  - apply get_or_create_customer_known; [exact NE |].
    apply settled_select_customer.
  - pose proof (settled_ledger customer_name items paid t1 t2 db W) as SL.
    cbv zeta in SL. fold st in SL.
    rewrite get_ledger_quiet. unfold ledger_of. rewrite SL. reflexivity.
Qed.

Lemma ledger_agrees_with_bill_witness :
  exists serial d db' cid,
    create_bill "Ali" [mkItem "6LTR BOTTLE" 1 30] 100 "t1"%string
      "t2"%string (quiet empty_db) = (Ok (serial, d), quiet db')
    /\ get_or_create_customer "Ali" "t3"%string (quiet db')
       = (Ok cid, quiet db')
    /\ get_ledger cid (quiet db')
       = (Ok (advance_after d, remaining_after d), quiet db').
Proof.
  apply (ledger_agrees_with_bill "Ali" [mkItem "6LTR BOTTLE" 1 30] 100
           "t1"%string "t2"%string "t3"%string empty_db).
  - unfold db_wf, empty_db. simpl. repeat split; constructor.
  - vm_compute. discriminate.
Defined.

(** X10. Bills chain: the second bill of a customer (the name may differ
    in outer whitespace) starts from the balances the first one left,
    so its details are the computation on [advance_after] and
    [remaining_after] of the first. *)
Theorem second_bill_starts_from_first (n1 n2 : string) (i1 i2 : list item)
    (p1 p2 : Q) (t1 t2 t3 t4 : timestamp) (db : database) :
  db_wf db -> strip n1 <> ""%string -> strip n2 = strip n1 ->
  exists s1 d1 db1 s2 db2,
    create_bill n1 i1 p1 t1 t2 (quiet db) = (Ok (s1, d1), quiet db1)
    /\ create_bill n2 i2 p2 t3 t4 (quiet db1)
       = (Ok (s2, bill_compute (advance_after d1) (remaining_after d1)
                    i2 p2), quiet db2).
Proof.
  intros W NE E.
  set (st1 := bill_stages n1 i1 p1 t1 t2 db).
  set (st2 := bill_stages n2 i2 p2 t3 t4 (st_settled st1)).
  exists (st_serial st1), (st_details st1), (st_settled st1),
         (st_serial st2), (st_settled st2).
  split; [apply create_bill_quiet; exact NE |].
  assert (NE2 : strip n2 <> ""%string) by (rewrite E; exact NE).
  rewrite (create_bill_quiet n2 i2 p2 t3 t4 (st_settled st1) NE2).
  fold st2.
  cut (st_details st2 = bill_compute (advance_after (st_details st1))
                          (remaining_after (st_details st1)) i2 p2);
    [intros <-; reflexivity |].
  destruct (bill_stages_fields n2 i2 p2 t3 t4 (st_settled st1))
    as (R & D & _). fold st2 in R, D.
  pose proof (settled_select_customer n1 i1 p1 t1 t2 db) as S.
  fold st1 in S. rewrite <- E in S.
  rewrite (registered_known _ t3 _ _ S) in R.
  injection R as R1 R2. rewrite R1, R2 in D.
  pose proof (settled_ledger n1 i1 p1 t1 t2 db W) as SL.
  cbv zeta in SL. fold st1 in SL.
  unfold ledger_of in D. rewrite SL in D. simpl in D. exact D.
Qed.

Lemma second_bill_starts_from_first_witness :
  exists s1 d1 db1 s2 db2,
    create_bill "Ali" [mkItem "6LTR BOTTLE" 1 30] 100 "t1"%string
      "t2"%string (quiet empty_db) = (Ok (s1, d1), quiet db1)
    /\ create_bill " Ali " [mkItem "500ML PACK" 4 5] 0 "t3"%string
         "t4"%string (quiet db1)
       = (Ok (s2, bill_compute (advance_after d1) (remaining_after d1)
                    [mkItem "500ML PACK" 4 5] 0), quiet db2).
Proof.
  apply (second_bill_starts_from_first "Ali" " Ali "
           [mkItem "6LTR BOTTLE" 1 30] [mkItem "500ML PACK" 4 5] 100 0
           "t1"%string "t2"%string "t3"%string "t4"%string empty_db).
  - unfold db_wf, empty_db. simpl. repeat split; constructor.
  - vm_compute. discriminate.
  - reflexivity.
Defined.

(* ------------------------------------------------------------------ *)
(** ** The pages that read *)

Lemma billing_form_download_transaction (serial : Z) (w : world) :
  transaction (billing_form_download serial)
    (download_answer serial (disk w)) (disk w) w.
Proof.
  unfold billing_form_download, download_answer.
  eapply transaction_bind; [apply transaction_get_conn |]. intros w1 D1.
  eapply transaction_bind; [apply transaction_run |]. intros w2 D2.
  destruct (select_bill serial (disk w)) as [[b customer] |].
  - eapply transaction_bind; [apply transaction_run |]. intros w3 D3.
    eapply transaction_bind; [apply transaction_close |]. intros w4 D4.
    rewrite <- D1, <- D2, <- D3, <- D4. apply transaction_ret.
  - eapply transaction_bind; [apply transaction_close |]. intros w3 D3.
    rewrite <- D1, <- D2, <- D3. apply transaction_ret.
Qed.



(** The bill row of a settled bill is found by its serial. *)
Lemma settled_find_bill (customer_name : string) (items : list item)
    (paid : Q) (utcnow now : timestamp) (db : database) :
  let st := bill_stages customer_name items paid utcnow now db in
  let d := st_details st in
  bills (st_settled st)
  = bills db ++ [mkBill (st_serial st) (st_customer_id st) now (subtotal d)
                   (advance_applied d) (amount_paid d) (remaining_after d)
                   (advance_after d)]
  /\ find (fun b => Z.eqb (b_id b) (st_serial st)) (bills (st_settled st))
     = Some (mkBill (st_serial st) (st_customer_id st) now (subtotal d)
               (advance_applied d) (amount_paid d) (remaining_after d)
               (advance_after d))
  /\ forall b, In b (bills db) -> (b_id b < st_serial st)%Z.
Proof.
  intros st d.
  destruct (bill_stages_tables customer_name items paid utcnow now db)
    as (_ & (BB & _) & (SB & _)). fold st in BB, SB. fold d in BB.
  destruct (bill_stages_serial customer_name items paid utcnow now db)
    as (E & _). fold st in E.
  assert (Old : forall b, In b (bills db) -> (b_id b < st_serial st)%Z).
  { intros b I. rewrite E. apply next_id_fresh, in_map, I. }
  rewrite SB, BB. split; [reflexivity |]. split; [| exact Old].
  rewrite find_app_none.
  - simpl. rewrite Z.eqb_refl. reflexivity.
  - apply find_none_iff. intros b I. apply Z.eqb_neq.
    specialize (Old b I). lia.
Qed.

Lemma settled_items (customer_name : string) (items : list item)
    (paid : Q) (utcnow now : timestamp) (db : database) :
  db_wf db ->
  let st := bill_stages customer_name items paid utcnow now db in
  select_bill_items (st_serial st) (st_settled st) = lines (st_details st).
Proof.
  intros (_ & _ & _ & _ & _ & IB) st.
  destruct (bill_stages_tables customer_name items paid utcnow now db)
    as (_ & (_ & (rows & BI & BM & BF) & _) & (_ & SI & _)).
  fold st in BI, BM, BF, SI.
  destruct (settled_find_bill customer_name items paid utcnow now db)
    as (_ & _ & Old). fold st in Old.
  unfold select_bill_items. rewrite SI, BI, filter_app.
  rewrite (filter_none _ (bill_items db)).
  - simpl. rewrite <- BM. f_equal.
    rewrite Forall_forall in BF. clear - BF.
    induction rows as [| r rows IH]; simpl; [reflexivity |].
    rewrite (BF r (or_introl eq_refl)), Z.eqb_refl. f_equal.
    apply IH. intros x I. apply BF. right; exact I.
  - intros r I. apply Z.eqb_neq. rewrite Forall_forall in IB.
    specialize (IB r I). apply in_map_iff in IB.
    destruct IB as (b & Eb & Ib). specialize (Old b Ib). lia.
Qed.

Lemma settled_find_customer (customer_name : string) (items : list item)
    (paid : Q) (utcnow now : timestamp) (db : database) :
  db_wf db ->
  let st := bill_stages customer_name items paid utcnow now db in
  exists r, c_id r = st_customer_id st /\ c_name r = strip customer_name
    /\ In r (customers (st_settled st))
    /\ find (fun cu => Z.eqb (c_id cu) (st_customer_id st))
         (customers (st_settled st)) = Some r
    /\ filter (fun cu => Z.eqb (c_id cu) (st_customer_id st))
         (customers (st_settled st)) = [r].
Proof.
  intros W st.
  destruct (stage_customer_row customer_name items paid utcnow now db)
    as (r & I & E & N). fold st in I, E.
  destruct (bill_stages_customers customer_name items paid utcnow now db)
    as (_ & SC & _). fold st in SC.
  destruct (db_wf_stages customer_name items paid utcnow now db W)
    as ((C1 & _) & _). fold st in C1.
  exists r. rewrite SC, <- E. repeat split; try assumption.
  - apply (find_unique_key c_id); assumption.
  - apply (filter_unique_key c_id); assumption.
Qed.

Lemma download_settled (customer_name : string) (items : list item)
    (paid : Q) (utcnow now : timestamp) (db : database) :
  db_wf db ->
  let st := bill_stages customer_name items paid utcnow now db in
  billing_form_download (st_serial st) (quiet (st_settled st))
  = (Ok (Some (mkInvoice (st_serial st) (strip customer_name) now
                 (st_details st))), quiet (st_settled st)).
Proof.
  intros W st.
  rewrite (transaction_quiet _ _ _ _
             (billing_form_download_transaction (st_serial st)
                (quiet (st_settled st)))).
  f_equal. f_equal. simpl. unfold download_answer, select_bill.
  destruct (settled_find_bill customer_name items paid utcnow now db)
    as (_ & F & _). fold st in F. rewrite F. simpl.
  destruct (settled_find_customer customer_name items paid utcnow now db W)
    as (r & _ & N & _ & FC & _). fold st in FC. rewrite FC. simpl.
  pose proof (settled_items customer_name items paid utcnow now db W) as SI.
  cbv zeta in SI. fold st in SI. rewrite SI, N.
  destruct (st_details st). reflexivity.
Qed.

(** X11. A bill can be downloaded again by its serial: "Download PDF"
    finds it and calls [build_invoice_pdf] with the serial, the stripped
    customer name, the bill date, and the amounts and lines
    [create_bill] returned. *)
Theorem download_finds_the_bill (customer_name : string)
    (items : list item) (paid : Q) (utcnow now : timestamp) (db : database) :
  db_wf db -> strip customer_name <> ""%string ->
  exists serial d db',
    create_bill customer_name items paid utcnow now (quiet db)
    = (Ok (serial, d), quiet db')
    /\ billing_form_download serial (quiet db')
       = (Ok (Some (mkInvoice serial (strip customer_name) now d)),
          quiet db').
Proof.
  intros W NE.
  set (st := bill_stages customer_name items paid utcnow now db).
  exists (st_serial st), (st_details st), (st_settled st).
  split; [apply create_bill_quiet; exact NE |].
  apply download_settled. exact W.
Qed.

Lemma download_finds_the_bill_witness :
  exists serial d db',
    create_bill " Ali " [mkItem "6LTR BOTTLE" 2 50; mkItem "500ML" 0 5] 20
      "t1"%string "t2"%string (quiet empty_db) = (Ok (serial, d), quiet db')
    /\ billing_form_download serial (quiet db')
       = (Ok (Some (mkInvoice serial (strip " Ali ") "t2"%string d)),
          quiet db').
Proof.
  apply (download_finds_the_bill " Ali "
           [mkItem "6LTR BOTTLE" 2 50; mkItem "500ML" 0 5] 20 "t1"%string
           "t2"%string empty_db).
  - unfold db_wf, empty_db. simpl. repeat split; constructor.
  - vm_compute. discriminate.
Defined.

Lemma find_key_in {A} (key : A -> Z) (l : list A) (k : Z) :
  find (fun x => Z.eqb (key x) k) l = None <-> ~ In k (map key l).
Proof.
  rewrite find_none_iff, in_map_iff. split.
  - intros H (x & E & I). specialize (H x I). apply Z.eqb_neq in H. auto.
  - intros H x I. apply Z.eqb_neq. intros E. apply H. exists x. auto.
Qed.

(** X12. "Download PDF" answers "Bill not found" exactly for the serials
    that no stored bill has, and it never writes, whether it returns or
    a statement fails. *)
Theorem download_not_found_iff (serial : Z) (db : database) :
  db_wf db ->
  (billing_form_download serial (quiet db) = (Ok None, quiet db)
   <-> ~ In serial (map b_id (bills db)))
  /\ forall w, disk (snd (billing_form_download serial w)) = disk w.
Proof.
  intros (_ & _ & _ & _ & BC & _). split.
  - rewrite (transaction_quiet _ _ _ _
               (billing_form_download_transaction serial (quiet db))).
    simpl. unfold download_answer, select_bill.
    rewrite <- (find_key_in b_id).
    destruct (find (fun b => Z.eqb (b_id b) serial) (bills db))
      as [b |] eqn:F.
    + apply find_some in F. destruct F as [Ib _].
      rewrite Forall_forall in BC. specialize (BC b Ib).
      destruct (find (fun cu => Z.eqb (c_id cu) (b_customer_id b))
                  (customers db)) as [cu |] eqn:FC.
      * simpl. split; intros H; discriminate H.
      * exfalso. apply (find_key_in c_id) in FC. exact (FC BC).
    + split; reflexivity.
  - intros w.
    pose proof (billing_form_download_transaction serial w) as T.
    unfold transaction in T.
    destruct (billing_form_download serial w) as [[v | e] w']; simpl.
    + destruct T as (_ & D & _). exact D.
    + destruct T as [D _]. exact D.
Qed.

Lemma download_not_found_iff_witness :
  let db1 := st_settled (bill_stages " Ali "
               [mkItem "6LTR BOTTLE" 2 50; mkItem "500ML" 0 5] 20
               "t1"%string "t2"%string empty_db) in
  let db := st_settled (bill_stages "Sara" [mkItem "500ML PACK" 3 5] 0
              "t3"%string "t4"%string db1) in
  map b_id (bills db) = [1; 2]%Z
  /\ map b_customer_id (bills db) = map c_id (customers db)
  /\ billing_form_download 3 (quiet db) = (Ok None, quiet db)
  /\ billing_form_download 1 (quiet db) <> (Ok None, quiet db)
  /\ billing_form_download 2 (quiet db) <> (Ok None, quiet db)
  /\ forall w, disk (snd (billing_form_download 3 w)) = disk w.
Proof.
  intros db1 db.
  assert (W : db_wf db).
  { apply db_wf_stages. apply db_wf_stages. exact db_wf_empty. }
  destruct (download_not_found_iff 3 db W) as [[_ N3] F3].
  destruct (download_not_found_iff 1 db W) as [[Y1 _] _].
  destruct (download_not_found_iff 2 db W) as [[Y2 _] _].
  split; [vm_compute; reflexivity |].
  split; [vm_compute; reflexivity |].
  split.
  { apply N3. vm_compute. intros [H | [H | []]]; discriminate H. }
  split.
  { intros H. apply (Y1 H). vm_compute. left. reflexivity. }
  split.
  { intros H. apply (Y2 H). vm_compute. right. left. reflexivity. }
  exact F3.
Defined.









(* ------------------------------------------------------------------ *)
(** ** E-mail addresses are lower-cased and stripped *)

Lemma lower_char_space (c : ascii) : is_space (lower_char c) = is_space c.
Proof. destruct c as [[] [] [] [] [] [] [] []]; reflexivity. Qed.

Lemma lower_char_idem (c : ascii) : lower_char (lower_char c) = lower_char c.
Proof. destruct c as [[] [] [] [] [] [] [] []]; reflexivity. Qed.

Lemma lower_idem (s : string) : lower (lower s) = lower s.
Proof.
  induction s as [| c s IH]; simpl; [reflexivity |].
  rewrite lower_char_idem, IH. reflexivity.
Qed.

Lemma lower_lstrip (s : string) : lower (lstrip s) = lstrip (lower s).
Proof.
  induction s as [| c s IH]; simpl; [reflexivity |].
  rewrite lower_char_space. destruct (is_space c); [exact IH | reflexivity].
Qed.

Lemma lower_rstrip (s : string) : lower (rstrip s) = rstrip (lower s).
Proof.
  induction s as [| c s IH]; simpl; [reflexivity |].
  rewrite <- IH, lower_char_space.
  destruct (rstrip s) as [| c' r]; simpl.
  - destruct (is_space c); reflexivity.
  - reflexivity.
Qed.

Lemma lower_strip (s : string) : lower (strip s) = strip (lower s).
Proof. unfold strip. rewrite lower_rstrip, lower_lstrip. reflexivity. Qed.

Lemma normalise_idem (s : string) :
  strip (lower (strip (lower s))) = strip (lower s).
Proof. rewrite lower_strip, lower_idem. apply strip_idem. Qed.

(* ------------------------------------------------------------------ *)
(** ** Accounts *)

Lemma create_user_quiet_new (H : hasher) (email password salt : string)
    (utcnow : timestamp) (db : database) :
  select_user (strip (lower email)) db = None ->
  create_user H email password salt utcnow (quiet db)
  = (Ok (true, ""%string),
     quiet (with_user (strip (lower email)) (H password salt) salt utcnow
              db)).
Proof.
  intros N.
  pose proof (create_user_cases H email password salt utcnow (quiet db)) as C.
  cbv zeta in C.
  destruct (create_user H email password salt utcnow (quiet db))
    as [[[[|] msg] | e] [db' b']]; simpl in C.
  - destruct C as (-> & _ & -> & B). rewrite B; reflexivity.
  - destruct C as (_ & S & _). contradiction.
  - destruct C as (_ & _ & B). exfalso. apply B. reflexivity.
Qed.

Lemma create_user_quiet_known (H : hasher) (email password salt : string)
    (utcnow : timestamp) (db : database) :
  select_user (strip (lower email)) db <> None ->
  create_user H email password salt utcnow (quiet db)
  = (Ok (false, "Email already exists"%string), quiet db).
Proof.
  intros N.
  pose proof (create_user_cases H email password salt utcnow (quiet db)) as C.
  cbv zeta in C.
  destruct (create_user H email password salt utcnow (quiet db))
    as [[[[|] msg] | e] [db' b']]; simpl in C.
  - destruct C as (_ & S & _). contradiction.
  - destruct C as (-> & _ & -> & B). rewrite B; reflexivity.
  - destruct C as (_ & _ & B). exfalso. apply B. reflexivity.
Qed.

Lemma verify_user_quiet (H : hasher) (email password : string)
    (db : database) :
  verify_user H email password (quiet db)
  = (Ok (match select_user (strip (lower email)) db with
         | None => false
         | Some (pw_hash, salt) => String.eqb (H password salt) pw_hash
         end), quiet db).
Proof.
  apply transaction_quiet.
  apply (verify_user_transaction H email password (quiet db)).
Qed.

(** X15. Sign-up then login: once [create_user] has stored an account,
    [verify_user] accepts the password under any spelling of the address
    that differs only in letter case and outer whitespace, the login
    page puts the address as typed in the session, and another password
    is accepted only if it hashes to the same digest with the stored
    salt. *)
Theorem signup_then_login (H : hasher) (email email' password salt : string)
    (utcnow : timestamp) (db : database) :
  select_user (strip (lower email)) db = None ->
  strip (lower email') = strip (lower email) ->
  exists db',
    create_user H email password salt utcnow (quiet db)
    = (Ok (true, ""%string), quiet db')
    /\ verify_user H email' password (quiet db') = (Ok true, quiet db')
    /\ page_auth_login H email' password (quiet db')
       = (Ok (success "Logged in successfully", Some email'), quiet db')
    /\ forall password',
        verify_user H email' password' (quiet db')
        = (Ok (String.eqb (H password' salt) (H password salt)), quiet db').
Proof.
  intros N E. eexists. split; [apply create_user_quiet_new; exact N |].
  assert (V : forall password',
             verify_user H email' password'
               (quiet (with_user (strip (lower email)) (H password salt)
                         salt utcnow db))
             = (Ok (String.eqb (H password' salt) (H password salt)),
                quiet (with_user (strip (lower email)) (H password salt)
                         salt utcnow db))).
  { intros password'. rewrite verify_user_quiet, E.
    rewrite (select_user_new _ _ _ _ _ N). reflexivity. }
  split; [rewrite V, String.eqb_refl; reflexivity |].
  split; [| exact V].
  unfold page_auth_login, bind. rewrite V, String.eqb_refl. reflexivity.
Qed.

Lemma signup_then_login_witness :
  exists db',
    create_user (fun p s => (s ++ p)%string) " Ali@Example.com " "pw" "5a"
      "t0"%string (quiet empty_db) = (Ok (true, ""%string), quiet db')
    /\ verify_user (fun p s => (s ++ p)%string) "ali@example.COM" "pw"
         (quiet db') = (Ok true, quiet db')
    /\ page_auth_login (fun p s => (s ++ p)%string) "ali@example.COM" "pw"
         (quiet db')
       = (Ok (success "Logged in successfully", Some "ali@example.COM"%string),
          quiet db')
    /\ forall password',
        verify_user (fun p s => (s ++ p)%string) "ali@example.COM" password'
          (quiet db')
        = (Ok (String.eqb ("5a" ++ password') ("5a" ++ "pw")), quiet db').
Proof.
  apply (signup_then_login (fun p s => (s ++ p)%string) " Ali@Example.com "
           "ali@example.COM" "pw" "5a" "t0"%string empty_db);
    reflexivity.
Defined.

(** X16. An address already taken, in any letter case and with any outer
    whitespace, is refused: [create_user] answers [(False, "Email
    already exists")], the sign-up page shows that error, and nothing is
    written, so the stored password stays; nothing is written either
    when a statement fails. *)
Theorem duplicate_email_is_refused (H : hasher)
    (email password salt : string) (utcnow : timestamp) (db : database) :
  select_user (strip (lower email)) db <> None ->
  create_user H email password salt utcnow (quiet db)
  = (Ok (false, "Email already exists"%string), quiet db)
  /\ (email <> ""%string -> password <> ""%string ->
      page_auth_signup H email password password salt utcnow (quiet db)
      = (Ok (error "Email already exists"), quiet db))
  /\ forall b,
      disk (snd (create_user H email password salt utcnow (mkWorld db b)))
      = db.
Proof.
  intros S. split; [apply create_user_quiet_known; exact S |]. split.
  - intros NE NP. unfold page_auth_signup.
    destruct (String.eqb_spec email "") as [|_]; [contradiction |].
    destruct (String.eqb_spec password "") as [|_]; [contradiction |].
    rewrite String.eqb_refl. simpl. unfold bind.
    rewrite (create_user_quiet_known H email password salt utcnow db S).
    reflexivity.
  - intros b.
    pose proof (create_user_cases H email password salt utcnow
                  (mkWorld db b)) as C. cbv zeta in C.
    destruct (create_user H email password salt utcnow (mkWorld db b))
      as [[[[|] msg] | e] w']; simpl in *.
    + destruct C as (_ & N & _). contradiction.
    + destruct C as (_ & _ & D & _). exact D.
    + destruct C as (_ & D & _). exact D.
Qed.

Lemma duplicate_email_is_refused_witness :
  let H := fun p s => (s ++ p)%string in
  let db := with_user "ali@example.com" "5apw" "5a" "t0"%string empty_db in
  create_user H "ALI@example.com  " "other" "77" "t1"%string (quiet db)
  = (Ok (false, "Email already exists"%string), quiet db)
  /\ page_auth_signup H "ALI@example.com  " "other" "other" "77" "t1"%string
       (quiet db)
     = (Ok (error "Email already exists"), quiet db).
Proof.
  intros H db.
  destruct (duplicate_email_is_refused H "ALI@example.com  " "other" "77"
              "t1"%string db) as (C & P & _).
  - vm_compute. discriminate.
  - split; [exact C |]. apply P; discriminate.
Defined.

(** X17. A sign-up, whether it succeeds, is refused or fails, touches
    nothing but the users table: it only appends to it, every other
    account is found as before (so its password still works), and the
    business tables and key counters are as they were. *)
Theorem create_user_frame (H : hasher) (email password salt : string)
    (utcnow : timestamp) (w : world) :
  let db := disk w in
  let db' := disk (snd (create_user H email password salt utcnow w)) in
  prefix (users db) (users db')
  /\ (forall e, e <> strip (lower email) ->
                select_user e db' = select_user e db)
  /\ customers db' = customers db /\ ledger db' = ledger db
  /\ bills db' = bills db /\ bill_items db' = bill_items db
  /\ seq_customers db' = seq_customers db /\ seq_bills db' = seq_bills db
  /\ seq_bill_items db' = seq_bill_items db.
Proof.
  intros db db'.
  pose proof (create_user_cases H email password salt utcnow w) as C.
  cbv zeta in C. unfold db'.
  destruct (create_user H email password salt utcnow w)
    as [[[[|] msg] | e] w']; simpl in *.
  - destruct C as (_ & _ & -> & _). simpl.
    split; [apply prefix_app |].
    split; [intros e NE; apply select_user_other; exact NE |].
    repeat split.
  - destruct C as (_ & _ & -> & _).
    split; [apply prefix_refl |]. repeat split.
  - destruct C as (_ & -> & _).
    split; [apply prefix_refl |]. repeat split.
Qed.

Lemma users_wf_with_user (email pw_hash salt : string) (t : timestamp)
    (db : database) :
  select_user (strip (lower email)) db = None ->
  users_wf db ->
  users_wf (with_user (strip (lower email)) pw_hash salt t db).
Proof.
  intros N [F D]. unfold users_wf, with_user. simpl. split.
  - apply Forall_app. split; [exact F |].
    constructor; [apply normalise_idem | constructor].
  - rewrite map_app. simpl. apply NoDup_snoc; [exact D |].
    intros I. apply in_map_iff in I. destruct I as (r & E & I).
    unfold select_user in N.
    destruct (find _ (users db)) eqn:Fd; [discriminate |].
    rewrite find_none_iff in Fd. specialize (Fd r I).
    apply String.eqb_neq in Fd. contradiction.
Qed.

(** X18. One account per address: the stored addresses are lower-cased
    and stripped and pairwise different after [init_db], and [create_user],
    [create_bill] and the admin page keep it so, also when a statement
    fails. *)
Theorem one_account_per_email :
  users_wf empty_db
  /\ (forall H email password salt utcnow w,
         users_wf (disk w) ->
         users_wf (disk (snd (create_user H email password salt utcnow w))))
  /\ (forall customer_name items paid utcnow now w,
         users_wf (disk w) ->
         users_wf (disk (snd (create_bill customer_name items paid utcnow
                                now w))))
  /\ (forall clicked w,
         users_wf (disk w) -> users_wf (disk (snd (page_admin clicked w)))).
Proof.
  split; [split; constructor |]. split; [| split].
  - intros H email password salt utcnow w W.
    pose proof (create_user_cases H email password salt utcnow w) as C.
    cbv zeta in C.
    destruct (create_user H email password salt utcnow w)
      as [[[[|] msg] | e] w']; simpl in *.
    + destruct C as (_ & N & -> & _). apply users_wf_with_user; assumption.
    + destruct C as (_ & _ & -> & _). exact W.
    + destruct C as (_ & -> & _). exact W.
  - intros customer_name items paid utcnow now w W.
    destruct (untouched_stages customer_name items paid utcnow now (disk w))
      as ((U0 & _) & (U1 & _) & (U2 & _) & (U3 & _)).
    pose proof (create_bill_durable customer_name items paid utcnow now w)
      as D. cbv zeta in D.
    unfold users_wf in *.
    destruct (create_bill customer_name items paid utcnow now w)
      as [[v | e] w']; simpl.
    + destruct D as [_ ->]. rewrite U3. exact W.
    + destruct D as [-> | [-> | ->]]; [| rewrite U1 | rewrite U2]; exact W.
  - intros [|] w W; [| exact W].
    pose proof (page_admin_transaction w) as T. unfold transaction in T.
    destruct (page_admin true w) as [[[] | e] w']; simpl.
    + destruct T as (_ & -> & _). exact W.
    + destruct T as [-> _]. exact W.
Qed.

Lemma one_account_per_email_witness :
  users_wf (disk (snd (create_user (fun p s => (s ++ p)%string)
                         " Ali@Example.com " "pw" "5a" "t0"%string
                         (quiet empty_db)))).
Proof.
  destruct one_account_per_email as (W0 & WU & _).
  apply WU. exact W0.
Defined.

(** X19. The login page never writes, and it puts a user in the session
    only when an account is stored under the normalised address and the
    password hashes, with the stored salt, to the stored digest; the user
    it puts is the address as typed. *)
Theorem login_needs_the_password (H : hasher) (email password : string)
    (w : world) :
  disk (snd (page_auth_login H email password w)) = disk w
  /\ forall n u w',
      page_auth_login H email password w = (Ok (n, Some u), w') ->
      u = email
      /\ exists pw_hash salt,
          select_user (strip (lower email)) (disk w) = Some (pw_hash, salt)
          /\ H password salt = pw_hash.
Proof.
  pose proof (verify_user_transaction H email password w) as T.
  unfold transaction in T. unfold page_auth_login, bind.
  destruct (verify_user H email password w) as [[[|] | e] w1]; simpl.
  - destruct T as (V & D & _). split; [exact D |].
    intros n u w' E. injection E as _ <- _. split; [reflexivity |].
    destruct (select_user (strip (lower email)) (disk w)) as [[h s] |];
      [| discriminate].
    exists h, s. split; [reflexivity |]. apply String.eqb_eq. auto.
  - destruct T as (_ & D & _). split; [exact D |]. discriminate.
  - destruct T as (D & _). split; [exact D |]. discriminate.
Qed.

Lemma login_needs_the_password_witness :
  let H := fun p s => (s ++ p)%string in
  let db := with_user "ali@example.com" "5apw" "5a" "t0"%string empty_db in
  "Ali@example.com"%string = "Ali@example.com"%string
  /\ exists pw_hash salt,
      select_user (strip (lower "Ali@example.com")) db = Some (pw_hash, salt)
      /\ H "pw"%string salt = pw_hash.
Proof.
  intros H db.
  destruct (login_needs_the_password H "Ali@example.com" "pw" (quiet db))
    as (_ & L).
  apply (L (success "Logged in successfully") "Ali@example.com"%string
           (quiet db)).
  reflexivity.
Defined.

(** The sign-up form stops before the database: with an empty
    address or password it warns that both are required, with two
    different passwords that they do not match; no statement runs and
    nothing is written. *)
Lemma signup_form_guards (H : hasher) (email2 pw1 pw2 salt : string)
    (utcnow : timestamp) (w : world) :
  (email2 = ""%string \/ pw1 = ""%string ->
   page_auth_signup H email2 pw1 pw2 salt utcnow w
   = (Ok (warning "Email and password are required"), w))
  /\ (email2 <> ""%string -> pw1 <> ""%string -> pw1 <> pw2 ->
      page_auth_signup H email2 pw1 pw2 salt utcnow w
      = (Ok (warning "Passwords do not match"), w)).
Proof.
  unfold page_auth_signup. split.
  - intros [-> | ->]; simpl; [reflexivity |].
    rewrite orb_true_r. reflexivity.
  - intros NE NP ND.
    destruct (String.eqb_spec email2 "") as [|_]; [contradiction |].
    destruct (String.eqb_spec pw1 "") as [|_]; [contradiction |].
    destruct (String.eqb_spec pw1 pw2) as [|_]; [contradiction |].
    reflexivity.
Qed.


(* ------------------------------------------------------------------ *)
(** ** The billing form *)

Lemma form_item_none (name : string) (q p : Q) :
  q <= 0 \/ p < 0 -> form_item name q p = [].
Proof.
  intros H. unfold form_item.
  change (Qltb 0 q && Qleb 0 p) with (spec_survives (mkItem name q p)).
  rewrite excluded_not_survives; [reflexivity | exact H].
Qed.

Lemma form_item_some (name : string) (q p : Q) :
  0 < q -> 0 <= p -> form_item name q p = [mkItem name q p].
Proof.
  intros Hq Hp. unfold form_item.
  apply Qltb_lt in Hq. apply Qleb_le in Hp. rewrite Hq, Hp. reflexivity.
Qed.

Lemma form_item_survives (name : string) (q p : Q) :
  filter spec_survives (form_item name q p) = form_item name q p.
Proof.
  unfold form_item.
  destruct (Qltb 0 q && Qleb 0 p) eqn:E; [| reflexivity].
  simpl. unfold spec_survives. simpl. rewrite E. reflexivity.
Qed.

Lemma form_items_survive (qty1 price1 qty2 price2 qty3 price3 : Q) :
  filter spec_survives (form_items qty1 price1 qty2 price2 qty3 price3)
  = form_items qty1 price1 qty2 price2 qty3 price3.
Proof.
  unfold form_items. rewrite !filter_app, !form_item_survives. reflexivity.
Qed.

Lemma billing_form_unfold (customer_name : string)
    (amount_paid qty1 price1 qty2 price2 qty3 price3 : Q)
    (utcnow now : timestamp) :
  customer_name <> ""%string ->
  form_items qty1 price1 qty2 price2 qty3 price3 <> [] ->
  billing_form customer_name amount_paid qty1 price1 qty2 price2 qty3 price3
    utcnow now
  = ('(bill_id, d) <- create_bill customer_name
                        (form_items qty1 price1 qty2 price2 qty3 price3)
                        amount_paid utcnow now ;;
     ret (Billed bill_id d)).
Proof.
  intros NE NI. unfold billing_form.
  destruct (String.eqb_spec customer_name "") as [|_]; [contradiction |].
  fold (form_items qty1 price1 qty2 price2 qty3 price3).
  destruct (form_items qty1 price1 qty2 price2 qty3 price3);
    [contradiction | reflexivity].
Qed.

(** X20. The billing form makes no empty bill: with an empty customer
    name, or with no row of quantity > 0 and price >= 0, "Generate Bill"
    only warns; no statement runs and nothing is written, whatever was
    typed as amount paid. *)
Theorem billing_form_guards (customer_name : string)
    (amount_paid qty1 price1 qty2 price2 qty3 price3 : Q)
    (utcnow now : timestamp) (w : world) :
  (customer_name = ""%string ->
   billing_form customer_name amount_paid qty1 price1 qty2 price2 qty3
     price3 utcnow now w
   = (Ok (Warned "Customer name is required"), w))
  /\ (customer_name <> ""%string ->
      (qty1 <= 0 \/ price1 < 0) -> (qty2 <= 0 \/ price2 < 0) ->
      (qty3 <= 0 \/ price3 < 0) ->
      billing_form customer_name amount_paid qty1 price1 qty2 price2 qty3
        price3 utcnow now w
      = (Ok (Warned "Add at least one item with quantity > 0"), w)).
Proof.
  unfold billing_form. split.
  - intros ->. reflexivity.
  - intros NE H1 H2 H3.
    destruct (String.eqb_spec customer_name "") as [|_]; [contradiction |].
    rewrite !form_item_none by assumption. reflexivity.
Qed.

Lemma billing_form_guards_witness :
  billing_form "" 50 1 5 0 0 0 0 "t0"%string "t1"%string (quiet empty_db)
  = (Ok (Warned "Customer name is required"), quiet empty_db)
  /\ billing_form "Ali" 50 0 5 0 0 2 (-1) "t0"%string "t1"%string
       (quiet empty_db)
     = (Ok (Warned "Add at least one item with quantity > 0"),
        quiet empty_db).
Proof.
  split.
  - apply (billing_form_guards "" 50 1 5 0 0 0 0 "t0"%string "t1"%string
             (quiet empty_db)). reflexivity.
  - apply (billing_form_guards "Ali" 50 0 5 0 0 2 (-1) "t0"%string
             "t1"%string (quiet empty_db)).
    + discriminate.
    + left. vm_compute. congruence.
    + left. vm_compute. congruence.
    + right. vm_compute. congruence.
Defined.

(** X21. The form tests the name for emptiness before stripping it: a
    name made of whitespace only passes the test, and with at least one
    valid row the [ValueError] of [get_or_create_customer] leaves
    [billing_form] unhandled; nothing is written. *)
Theorem billing_form_whitespace_name (customer_name : string)
    (amount_paid qty1 price1 qty2 price2 qty3 price3 : Q)
    (utcnow now : timestamp) (w : world) :
  customer_name <> ""%string -> strip customer_name = ""%string ->
  form_items qty1 price1 qty2 price2 qty3 price3 <> [] ->
  billing_form customer_name amount_paid qty1 price1 qty2 price2 qty3 price3
    utcnow now w
  = (Raise (ValueError "Customer name required"), w).
Proof.
  intros NE E NI. rewrite billing_form_unfold by assumption.
  unfold bind. rewrite get_or_create_customer_empty_bill by exact E.
  reflexivity.
Qed.

Lemma billing_form_whitespace_name_witness :
  billing_form "  " 0 1 5 0 0 0 0 "t0"%string "t1"%string (quiet empty_db)
  = (Raise (ValueError "Customer name required"), quiet empty_db).
Proof.
  apply (billing_form_whitespace_name "  " 0 1 5 0 0 0 0 "t0"%string
           "t1"%string (quiet empty_db)).
  - discriminate.
  - reflexivity.
  - vm_compute. discriminate.
Defined.

(** X22. A bill made through the form bills every row the form kept, in
    the order 500ML, 1.5LTR, 6LTR: the filter of [create_bill] drops
    none of them, and the form answers with the serial and details of
    that [create_bill]. *)
Theorem billing_form_bills_its_rows (customer_name : string)
    (amount_paid qty1 price1 qty2 price2 qty3 price3 : Q)
    (utcnow now : timestamp) (db : database) :
  let items := form_items qty1 price1 qty2 price2 qty3 price3 in
  strip customer_name <> ""%string -> items <> [] ->
  exists serial d db',
    billing_form customer_name amount_paid qty1 price1 qty2 price2 qty3
      price3 utcnow now (quiet db) = (Ok (Billed serial d), quiet db')
    /\ create_bill customer_name items amount_paid utcnow now (quiet db)
       = (Ok (serial, d), quiet db')
    /\ lines d = map spec_line items.
Proof.
  intros items NE NI.
  set (st := bill_stages customer_name items amount_paid utcnow now db).
  exists (st_serial st), (st_details st), (st_settled st).
  assert (N0 : customer_name <> ""%string).
  { intros ->. apply NE. reflexivity. }
  pose proof (create_bill_quiet customer_name items amount_paid utcnow now
                db NE) as CB. cbv zeta in CB. fold st in CB.
  split; [| split; [exact CB |]].
  - rewrite billing_form_unfold by assumption. fold items.
    unfold bind. rewrite CB. reflexivity.
  - destruct (bill_stages_fields customer_name items amount_paid utcnow now
                db) as (_ & D & _). fold st in D.
    rewrite D, bill_compute_lines. unfold items.
    rewrite form_items_survive. reflexivity.
Qed.

Lemma billing_form_bills_its_rows_witness :
  exists serial d db',
    billing_form "Ali" 100 10 5 0 7 2 50 "t0"%string "t1"%string
      (quiet empty_db) = (Ok (Billed serial d), quiet db')
    /\ create_bill "Ali" (form_items 10 5 0 7 2 50) 100 "t0"%string
         "t1"%string (quiet empty_db) = (Ok (serial, d), quiet db')
    /\ lines d = map spec_line (form_items 10 5 0 7 2 50).
Proof.
  apply (billing_form_bills_its_rows "Ali" 100 10 5 0 7 2 50 "t0"%string
           "t1"%string empty_db); vm_compute; discriminate.
Defined.

(* ------------------------------------------------------------------ *)
(** ** The layout of the invoice *)

Lemma within_weaken (lo lo' hi hi' : Q) (ops : list canvas_op) :
  lo' <= lo -> hi <= hi' ->
  Forall (within lo hi) ops -> Forall (within lo' hi') ops.
Proof.
  intros Hl Hh F. rewrite Forall_forall in *. intros op I.
  specialize (F op I). unfold within in *.
  destruct (text_y op); [lra | exact F].
Qed.

Lemma pdf_items_bounds (env : printing) (margin usable_w width height : Q)
    (hi : Q) (items : list line) (y : Q) (ops : list canvas_op) :
  60 * mm env <= height - margin - 20 -> height - margin - 20 <= hi ->
  y <= hi ->
  Forall (within (60 * mm env) hi) ops ->
  let r := fold_left (pdf_items_body env margin usable_w width height) items
             (y, ops) in
  Forall (within (60 * mm env) hi) (snd r) /\ fst r <= hi
  /\ (items = [] /\ fst r = y \/ items <> [] /\ 60 * mm env - 12 <= fst r).
Proof.
  intros T1 T2. revert y ops.
  induction items as [| it items IH]; intros y ops Hy F; simpl.
  - split; [exact F |]. split; [exact Hy | left; auto].
  - set (y1 := if Qltb y (60 * mm env) then height - margin - 20 else y).
    assert (B : 60 * mm env <= y1 /\ y1 <= hi).
    { unfold y1. destruct (Qltb y (60 * mm env)) eqn:E; [lra |].
      apply Qltb_ge in E. lra. }
    assert (Step : exists ops1,
               (let '(y0, ops0) :=
                  if Qltb y (60 * mm env)
                  then (height - margin - 20, ops ++ [showPage])
                  else (y, ops) in
                (y0 - 12,
                 ops0 ++ [drawString (margin + 6) y0 (ln_item it);
                          drawRightString (margin + usable_w * (6 # 10)) y0
                            (format_2f env (ln_qty it));
                          drawRightString (margin + usable_w * (8 # 10)) y0
                            (format_2f env (ln_price it));
                          drawRightString (width - margin - 6) y0
                            (format_2f env (ln_total it))]))
               = (y1 - 12, ops1)
               /\ Forall (within (60 * mm env) hi) ops1).
    { unfold y1. destruct (Qltb y (60 * mm env)) eqn:E; eexists;
        (split; [reflexivity |]); fold y1 in B |- *;
        repeat (apply Forall_app; split); try exact F;
        repeat constructor; unfold within; simpl; try lra; exact I. }
    destruct Step as (ops1 & -> & F1).
    destruct (IH (y1 - 12) ops1) as (G1 & G0 & G2); [lra | exact F1 |].
    split; [exact G1 |]. split; [exact G0 |].
    right. split; [discriminate |].
    destruct G2 as [[-> ->] | [_ G2]]; simpl; lra.
Qed.

(** X23. Nothing is written off the page or into the footer: on a page
    where 42 mm are at least 78 points and that is at least 78 mm + 20
    and 36 mm + 138 points high (as A4 is), every text of the invoice is
    written between the footer line at 18 mm and the top edge, and every
    item row at 60 mm or higher, however many items there are. *)
Theorem invoice_texts_stay_on_page (env : printing) (serial : Z)
    (customer_name : string) (bill_date : timestamp) (items : list line)
    (sub aa paid adv rem : Q) :
  let width := fst (A4 env) in
  let height := snd (A4 env) in
  78 <= 42 * mm env -> 78 * mm env + 20 <= height ->
  36 * mm env + 138 <= height ->
  Forall (within (18 * mm env) height)
    (build_invoice_pdf env serial customer_name bill_date items sub aa paid
       adv rem)
  /\ Forall (within (60 * mm env) height)
       (snd (pdf_items env (18 * mm env) (width - 2 * (18 * mm env)) width
               height (height - 18 * mm env - 14 - 18 - 22 - 18) items)).
Proof.
  destruct env as [m [wd ht] fi f2 fd]. simpl. intros G2 G3 G4.
  pose proof (pdf_items_bounds (mkPrinting m (wd, ht) fi f2 fd) (18 * m)
                (wd - 2 * (18 * m)) wd ht ht items
                (ht - 18 * m - 14 - 18 - 22 - 18) []) as B.
  simpl in B. destruct B as (R & U & L); try lra; [constructor |].
  split; [| exact R].
  unfold build_invoice_pdf. simpl. unfold pdf_items in *.
  destruct (fold_left _ items (ht - 18 * m - 14 - 18 - 22 - 18, []))
    as [ye rows]. simpl in R, U, L.
  assert (Lo : 18 * m + 66 <= ye).
  { destruct L as [[_ ->] | [_ L]]; lra. }
  repeat (apply Forall_cons || apply Forall_app; try split);
    try (apply (within_weaken (60 * m) (18 * m) ht ht); [lra | lra | exact R]);
    try apply Forall_nil; unfold within; simpl; try exact I; lra.
Qed.

Lemma invoice_texts_stay_on_page_witness :
  let env := reportlab (fun _ => "1"%string) (fun _ => "0.00"%string)
               (fun t => t) in
  Forall (within (18 * mm env) (snd (A4 env)))
    (build_invoice_pdf env 1 "Ali" "2025-01-01 14:00"%string
       (repeat (mkLine "6LTR BOTTLE" 1 30 30) 60) 1800 0 1800 0 0).
Proof.
  intros env.
  apply (invoice_texts_stay_on_page env 1 "Ali" "2025-01-01 14:00"%string
           (repeat (mkLine "6LTR BOTTLE" 1 30 30) 60) 1800 0 1800 0 0);
    vm_compute; congruence.
Defined.

Lemma left_texts_app (a b : list canvas_op) :
  left_texts (a ++ b) = left_texts a ++ left_texts b.
Proof. apply flat_map_app. Qed.

Lemma pdf_items_left_texts (env : printing)
    (margin usable_w width height : Q) (items : list line) (y : Q)
    (ops : list canvas_op) :
  left_texts (snd (fold_left (pdf_items_body env margin usable_w width height)
                     items (y, ops)))
  = left_texts ops ++ map ln_item items.
Proof.
  revert y ops. induction items as [| it items IH]; intros y ops; simpl.
  - symmetry. apply app_nil_r.
  - destruct (Qltb y (60 * mm env)); rewrite IH;
      rewrite !left_texts_app; simpl; rewrite <- !app_assoc; simpl;
      reflexivity.
Qed.

Lemma build_invoice_pdf_left_texts (env : printing) (serial : Z)
    (customer_name : string) (bill_date : timestamp) (items : list line)
    (sub aa paid adv rem : Q) :
  left_texts (build_invoice_pdf env serial customer_name bill_date items
                sub aa paid adv rem)
  = [COMPANY_NAME; ("Bill Serial: " ++ format_int env serial)%string;
     ("Customer: " ++ customer_name)%string; "Item"%string]
    ++ map ln_item items.
Proof.
  unfold build_invoice_pdf. destruct (A4 env) as [width height].
  unfold pdf_items.
  match goal with
  | |- context [fold_left ?f items (?y0, [])] =>
      pose proof (pdf_items_left_texts env (18 * mm env)
                    (width - 2 * (18 * mm env)) width height items
                    y0 []) as T;
      destruct (fold_left f items (y0, [])) as [ye rows]
  end.
  simpl in T. repeat (rewrite left_texts_app; simpl). rewrite T.
  rewrite app_nil_r. reflexivity.
Qed.

(** X24. The invoice names its bill and every line once, in order: the
    texts written with [drawString] are the company name, "Bill Serial:"
    with the serial, "Customer:" with the name, the column title "Item",
    and then the names of the items as given, page breaks or not. *)
Theorem invoice_lists_every_item (env : printing) (serial : Z)
    (customer_name : string) (bill_date : timestamp) (items : list line)
    (sub aa paid adv rem : Q) :
  left_texts (build_invoice_pdf env serial customer_name bill_date items
                sub aa paid adv rem)
  = [COMPANY_NAME; ("Bill Serial: " ++ format_int env serial)%string;
     ("Customer: " ++ customer_name)%string; "Item"%string]
    ++ map ln_item items.
Proof. apply build_invoice_pdf_left_texts. Qed.

(* ------------------------------------------------------------------ *)
(** ** The pages of the invoice *)

Lemma pages_app (a b : list canvas_op) :
  pages (a ++ b) = (pages a + pages b)%nat.
Proof. unfold pages. rewrite filter_app, length_app. reflexivity. Qed.

Lemma inject_succ (n : nat) :
  inject_Z (Z.of_nat (S n)) == inject_Z (Z.of_nat n) + 1.
Proof. rewrite Nat2Z.inj_succ, <- Z.add_1_r, inject_Z_plus. reflexivity. Qed.

Lemma inject_nat_nonneg (n : nat) : 0 <= inject_Z (Z.of_nat n).
Proof. unfold Qle. simpl. lia. Qed.

(** Rows that fit above the 60 mm line cause no page break. *)
Lemma pdf_items_no_break (env : printing) (margin usable_w width height : Q)
    (items : list line) (y : Q) (ops : list canvas_op) :
  60 * mm env + 12 * inject_Z (Z.of_nat (List.length items)) <= y + 12 ->
  pages (snd (fold_left (pdf_items_body env margin usable_w width height)
                items (y, ops)))
  = pages ops.
Proof.
  revert y ops. induction items as [| it items IH]; intros y ops H;
    [reflexivity |].
  cbn [List.length] in H. rewrite inject_succ in H.
  pose proof (inject_nat_nonneg (List.length items)) as N.
  simpl. assert (E : Qltb y (60 * mm env) = false) by (apply Qltb_ge; lra).
  rewrite E, IH by lra.
  rewrite pages_app. simpl. apply Nat.add_0_r.
Qed.

Lemma pdf_items_pages_mono (env : printing)
    (margin usable_w width height : Q) (items : list line) (y : Q)
    (ops : list canvas_op) :
  (pages ops
   <= pages (snd (fold_left (pdf_items_body env margin usable_w width height)
                    items (y, ops))))%nat.
Proof.
  revert y ops. induction items as [| it items IH]; intros y ops; simpl;
    [apply Nat.le_refl |].
  destruct (Qltb y (60 * mm env));
    (eapply Nat.le_trans; [| apply IH]); rewrite !pages_app; simpl; lia.
Qed.

(** Rows that do not fit cause one. *)
Lemma pdf_items_break (env : printing) (margin usable_w width height : Q)
    (items : list line) (y : Q) (ops : list canvas_op) :
  items <> [] ->
  y + 12 < 60 * mm env + 12 * inject_Z (Z.of_nat (List.length items)) ->
  (S (pages ops)
   <= pages (snd (fold_left (pdf_items_body env margin usable_w width height)
                    items (y, ops))))%nat.
Proof.
  revert y ops. induction items as [| it items IH]; intros y ops NE H;
    [contradiction |].
  cbn [List.length] in H. rewrite inject_succ in H. simpl.
  destruct (Qltb y (60 * mm env)) eqn:E.
  - eapply Nat.le_trans; [| apply pdf_items_pages_mono].
    unfold pages. rewrite !filter_app, !length_app. simpl. lia.
  - apply Qltb_ge in E. destruct items as [| it2 items].
    + exfalso.
      change (inject_Z (Z.of_nat (List.length (@nil line)))) with 0 in H.
      lra.
    + eapply Nat.le_trans; [| apply IH; [discriminate | lra]].
      unfold pages. rewrite !filter_app, !length_app. simpl. lia.
Qed.

Lemma build_invoice_pdf_pages (env : printing) (serial : Z)
    (customer_name : string) (bill_date : timestamp) (items : list line)
    (sub aa paid adv rem : Q) :
  let height := snd (A4 env) in
  let n := inject_Z (Z.of_nat (List.length items)) in
  let doc := build_invoice_pdf env serial customer_name bill_date items sub
               aa paid adv rem in
  (60 * mm env + 12 * n <= height - 18 * mm env - 60 -> pages doc = 1%nat)
  /\ (items <> [] -> height - 18 * mm env - 60 < 60 * mm env + 12 * n ->
      (2 <= pages doc)%nat).
Proof.
  intros height n doc. unfold doc, build_invoice_pdf.
  subst height. destruct (A4 env) as [width height]. simpl snd.
  unfold pdf_items.
  match goal with
  | |- context [fold_left ?f items (?y0, [])] =>
      pose proof (pdf_items_no_break env (18 * mm env)
                    (width - 2 * (18 * mm env)) width height items
                    y0 []) as NB;
      pose proof (pdf_items_break env (18 * mm env)
                    (width - 2 * (18 * mm env)) width height items
                    y0 []) as BR;
      destruct (fold_left f items (y0, [])) as [ye rows]
  end.
  simpl in NB, BR. fold n in NB, BR.
  unfold pages in *. simpl in NB, BR.
  split.
  - intros F. simpl. rewrite !filter_app, !length_app. simpl.
    rewrite NB by lra. reflexivity.
  - intros NE F. simpl. rewrite !filter_app, !length_app. simpl.
    specialize (BR NE).
    assert (1 <= List.length (filter is_showPage rows))%nat
      by (apply BR; lra).
    lia.
Qed.

(** X25. The invoice is one page exactly when its rows fit: with [n]
    items it has a single page if 60 mm + 12 n <= height - 18 mm - 60
    (on A4, up to 46 items), and at least two pages otherwise. *)
Theorem invoice_page_count (env : printing) (serial : Z)
    (customer_name : string) (bill_date : timestamp) (items : list line)
    (sub aa paid adv rem : Q) :
  let height := snd (A4 env) in
  let n := inject_Z (Z.of_nat (List.length items)) in
  let doc := build_invoice_pdf env serial customer_name bill_date items sub
               aa paid adv rem in
  (60 * mm env + 12 * n <= height - 18 * mm env - 60 -> pages doc = 1%nat)
  /\ (items <> [] -> height - 18 * mm env - 60 < 60 * mm env + 12 * n ->
      (2 <= pages doc)%nat).
Proof. apply build_invoice_pdf_pages. Qed.

Lemma invoice_page_count_witness :
  let env := reportlab (fun _ => "1"%string) (fun _ => "0.00"%string)
               (fun t => t) in
  pages (build_invoice_pdf env 1 "Ali" "2025-01-01 14:00"%string
           (repeat (mkLine "6LTR BOTTLE" 1 30 30) 46) 1380 0 1380 0 0)
  = 1%nat
  /\ (2 <= pages (build_invoice_pdf env 1 "Ali" "2025-01-01 14:00"%string
                    (repeat (mkLine "6LTR BOTTLE" 1 30 30) 47) 1410 0 1410
                    0 0))%nat.
Proof.
  intros env. split.
  - apply (invoice_page_count env 1 "Ali" "2025-01-01 14:00"%string
             (repeat (mkLine "6LTR BOTTLE" 1 30 30) 46) 1380 0 1380 0 0).
    vm_compute. congruence.
  - apply (invoice_page_count env 1 "Ali" "2025-01-01 14:00"%string
             (repeat (mkLine "6LTR BOTTLE" 1 30 30) 47) 1410 0 1410 0 0).
    + discriminate.
    + vm_compute. reflexivity.
Defined.

Lemma form_items_length (qty1 price1 qty2 price2 qty3 price3 : Q) :
  (List.length (form_items qty1 price1 qty2 price2 qty3 price3) <= 3)%nat.
Proof.
  unfold form_items, form_item.
  destruct (Qltb 0 qty1 && Qleb 0 price1);
    destruct (Qltb 0 qty2 && Qleb 0 price2);
    destruct (Qltb 0 qty3 && Qleb 0 price3); simpl; lia.
Qed.

(** X26. From the form to the paper: a bill made with the billing form
    can be downloaded by its serial, and on reportlab's A4 its invoice is
    a single page that names the serial, the stripped customer name and,
    in the order of the form, the products billed. *)
Theorem form_bill_is_a_one_page_invoice (customer_name : string)
    (amount_paid qty1 price1 qty2 price2 qty3 price3 : Q)
    (utcnow now : timestamp) (db : database) :
  let items := form_items qty1 price1 qty2 price2 qty3 price3 in
  db_wf db -> strip customer_name <> ""%string -> items <> [] ->
  exists serial d db' inv,
    billing_form customer_name amount_paid qty1 price1 qty2 price2 qty3
      price3 utcnow now (quiet db) = (Ok (Billed serial d), quiet db')
    /\ billing_form_download serial (quiet db') = (Ok (Some inv), quiet db')
    /\ forall fi f2 fd,
        pages (invoice_pdf (reportlab fi f2 fd) inv) = 1%nat
        /\ left_texts (invoice_pdf (reportlab fi f2 fd) inv)
           = [COMPANY_NAME; ("Bill Serial: " ++ fi serial)%string;
              ("Customer: " ++ strip customer_name)%string; "Item"%string]
             ++ map it_name items.
Proof.
  intros items W NE NI.
  set (st := bill_stages customer_name items amount_paid utcnow now db).
  exists (st_serial st), (st_details st), (st_settled st),
         (mkInvoice (st_serial st) (strip customer_name) now (st_details st)).
  assert (N0 : customer_name <> ""%string).
  { intros ->. apply NE. reflexivity. }
  pose proof (create_bill_quiet customer_name items amount_paid utcnow now
                db NE) as CB. cbv zeta in CB. fold st in CB.
  assert (L : lines (st_details st) = map spec_line items).
  { destruct (bill_stages_fields customer_name items amount_paid utcnow now
                db) as (_ & D & _). fold st in D.
    rewrite D, bill_compute_lines. unfold items.
    rewrite form_items_survive. reflexivity. }
  split; [| split].
  - rewrite billing_form_unfold by assumption. fold items.
    unfold bind. rewrite CB. reflexivity.
  - apply download_settled. exact W.
  - intros fi f2 fd. unfold invoice_pdf. simpl. split.
    + apply build_invoice_pdf_pages. simpl.
      assert (B : inject_Z (Z.of_nat (List.length (lines (st_details st))))
                  <= 3).
      { rewrite L, length_map.
        pose proof (form_items_length qty1 price1 qty2 price2 qty3 price3).
        fold items in H. unfold Qle. simpl. lia. }
      lra.
    + rewrite build_invoice_pdf_left_texts, L, map_map. reflexivity.
Qed.

Lemma form_bill_is_a_one_page_invoice_witness :
  exists serial d db' inv,
    billing_form " Ali " 100 10 5 0 7 2 50 "t0"%string "t1"%string
      (quiet empty_db) = (Ok (Billed serial d), quiet db')
    /\ billing_form_download serial (quiet db') = (Ok (Some inv), quiet db')
    /\ forall fi f2 fd,
        pages (invoice_pdf (reportlab fi f2 fd) inv) = 1%nat
        /\ left_texts (invoice_pdf (reportlab fi f2 fd) inv)
           = [COMPANY_NAME; ("Bill Serial: " ++ fi serial)%string;
              ("Customer: " ++ strip " Ali ")%string; "Item"%string]
             ++ map it_name (form_items 10 5 0 7 2 50).
Proof.
  apply (form_bill_is_a_one_page_invoice " Ali " 100 10 5 0 7 2 50
           "t0"%string "t1"%string empty_db).
  - unfold db_wf, empty_db. simpl. repeat split; constructor.
  - vm_compute. discriminate.
  - vm_compute. discriminate.
Defined.
